(** * The rag-service indexing and retrieval pipeline

    A shallow embedding of [app/routers/rag_agent.py] and of the service
    classes it drives ([app/services/pinecone_service.py], and the entry
    points of [embedding_service.py] and [llm_service.py]).

    Conventions.
    - Python [str] is [string]; a character is a code point below 256.
    - Python [dict] with string keys is a [gmap string _].
    - Python [float] scores are exact rationals ([Q]); the rounding error of
      binary floating point addition and division is not represented, and
      no property below rests on a sum or a quotient that doubles would
      round: scores are passed along, compared, or averaged over one match.
    - An operation that talks to a collaborator (sentence splitter, embedding
      model, Pinecone index, chat model, clock) is a node of a program tree
      ([Prog]); running a tree against a handler threads a world state and
      records every request together with its reply. *)

From Stdlib Require Import ZArith QArith Lia Lqa Bool Ascii String List.
From stdpp Require Import gmap strings list pretty sorting.

#[local] Open Scope string_scope.
#[local] Open Scope list_scope.
#[local] Open Scope Z_scope.

(** ** Python strings *)

Module PyStr.

(** [str.isspace] for one code point below 256: TAB, LF, VT, FF, CR, the four
    separators FS, GS, RS, US, SPACE, NEL (0x85) and NBSP (0xA0). *)
Definition isspace (c : ascii) : bool :=
  let n := Z.of_nat (nat_of_ascii c) in
  ((9 <=? n) && (n <=? 13)) || ((28 <=? n) && (n <=? 32))
  || (n =? 133) || (n =? 160).

Fixpoint lstrip (s : string) : string :=
  match s with
  | EmptyString => EmptyString
  | String c rest => if isspace c then lstrip rest else s
  end.

Fixpoint rev_onto (s acc : string) : string :=
  match s with
  | EmptyString => acc
  | String c rest => rev_onto rest (String c acc)
  end.

Definition rev (s : string) : string := rev_onto s EmptyString.

Definition rstrip (s : string) : string := rev (lstrip (rev s)).

(** [s.strip()] *)
Definition strip (s : string) : string := rstrip (lstrip s).

(** [len(s)] *)
Definition len (s : string) : Z := Z.of_nat (String.length s).

(** [not s]: the empty string is falsy. *)
Definition falsy (s : string) : bool :=
  match s with EmptyString => true | _ => false end.

(** [len(s.split())]: the number of maximal runs of non-space characters.
    [inword] tells whether the previous character belonged to a word. *)
Fixpoint count_words (inword : bool) (s : string) : Z :=
  match s with
  | EmptyString => 0
  | String c rest =>
      if isspace c then count_words false rest
      else (if inword then 0 else 1) + count_words true rest
  end.

Definition word_count (s : string) : Z := count_words false s.

(** Every character is white space (true of the empty string too). *)
Fixpoint all_space (s : string) : bool :=
  match s with
  | EmptyString => true
  | String c rest => isspace c && all_space rest
  end.

End PyStr.

(** The guard both endpoints apply to their text field:
    [not s or len(s.strip()) == 0]. *)
Definition is_blank (s : string) : bool :=
  PyStr.falsy s || (PyStr.len (PyStr.strip s) =? 0).

(** ** Namespaces *)

(** [f"user_{user_id}_{email_id}"], as written in
    [PineconeService.store_documents] and in [retrieve_rag_data]. *)
Definition namespace_of (user_id email_id : string) : string :=
  "user_" +:+ user_id +:+ "_" +:+ email_id.

(** [f"user_{user_id}"], as written in [PineconeService.search_documents]. *)
Definition search_namespace_of (user_id : string) : string :=
  "user_" +:+ user_id.

Example namespace_of_example : namespace_of "123" "email001" = "user_123_email001".
Proof. reflexivity. Qed.

(** ** Data model *)

(** A metadata value.  The pipeline only ever writes strings and integers. *)
Inductive MVal : Type :=
| VStr (s : string)
| VInt (n : Z).

#[global] Instance MVal_eq_dec : EqDecision MVal.
Proof. solve_decision. Defined.

(** An embedding vector, [List[float]]. *)
Definition vector : Type := list Q.

(** llama_index [Document(text=..., extra_info=...)]. *)
Record Document : Type := mkDocument {
  doc_text : string;
  extra_info : gmap string MVal
}.

(** A llama_index node, as far as the service reads it:
    [node.node_id], [node.get_content()], [node.metadata]. *)
Record Node : Type := mkNode {
  node_id : string;
  get_content : string;
  node_metadata : gmap string MVal
}.

(** [PineconeVector]: the dictionary handed to [index.upsert]. *)
Record PineconeVector : Type := mkPineconeVector {
  pv_id : string;
  pv_values : vector;
  pv_metadata : gmap string MVal
}.

(** One element of [response.matches] as Pinecone returns it. *)
Record ScoredVector : Type := mkScoredVector {
  sv_id : string;
  sv_score : Q;
  sv_metadata : option (gmap string MVal);
  sv_values : option vector
}.

(** One result dictionary built by [query_vectors]: the keys ["metadata"]
    and ["values"] may be absent. *)
Record QueryResult : Type := mkQueryResult {
  qr_id : string;
  qr_score : Q;
  qr_metadata : option (gmap string MVal);
  qr_values : option vector
}.

(** One element of [context_chunks] in [retrieve_rag_data]. *)
Record ContextChunk : Type := mkContextChunk {
  cc_score : Q;
  cc_title : MVal;
  cc_text : MVal;
  cc_timestamp : MVal;
  cc_email_id : MVal;
  cc_chunk_index : MVal
}.

(** What [retrieve_rag_data] reads of the dictionary returned by
    [LLMService.generate_response].  The answer is the text of the first
    choice; a completion without content, where the dictionary holds [None]
    under ["answer"], is not represented. *)
Record LlmResponse : Type := mkLlmResponse {
  llm_answer : string;
  llm_total_tokens : Z
}.

Record RagStoreRequest : Type := mkRagStoreRequest {
  s_userId : string;
  s_email : string;
  s_title : string;
  s_content : string
}.

Record RagStoreResponse : Type := mkRagStoreResponse {
  documentId : string;
  indexed : bool
}.

Record RagRetrieveRequest : Type := mkRagRetrieveRequest {
  r_userId : string;
  r_email : string;
  r_query : string;
  r_topK : Z
}.

Record RagRetrieveResponse : Type := mkRagRetrieveResponse {
  answer : string;
  score : Q
}.

(** ** Exceptions

    The exceptions the [except] clauses of the services can name: instances
    of [Exception], the [HTTPException] of FastAPI among them.  What derives
    from [BaseException] only ([KeyboardInterrupt], [SystemExit]) passes
    through every handler of the services and is not represented. *)

Inductive exn : Type :=
| Exception (msg : string)
| HTTPException (status_code : Z) (detail : string).

(** ** Requests to collaborators

    A collaborator returns a value or raises an [Exception], of which the
    services read the message only. *)

Inductive reply (A : Type) : Type :=
| Ok (a : A)
| Raised (msg : string).
Arguments Ok {A} a.
Arguments Raised {A} msg.

Inductive Request : Type :=
| SplitText (chunk_size chunk_overlap : Z) (text : string)
| GetNodesFromDocuments (chunk_size chunk_overlap : Z) (docs : list Document)
| Now
| EmbedTextWhileSearching (text : string)
| EmbedTextsWhileStoring (texts : list string)
| IndexUpsert (vectors : list PineconeVector) (namespace : string)
| IndexQuery (query_vector : vector) (top_k : Z)
    (filter : option (gmap string MVal)) (namespace : string)
    (include_metadata include_values : bool)
| GenerateResponse (query : string) (context_chunks : list ContextChunk)
    (temperature : Q) (max_tokens : Z).

Definition Response (r : Request) : Type :=
  match r with
  | SplitText _ _ _ => list string
  | GetNodesFromDocuments _ _ _ => list Node
  | Now => string
  | EmbedTextWhileSearching _ => vector
  | EmbedTextsWhileStoring _ => list vector
  | IndexUpsert _ _ => unit
  | IndexQuery _ _ _ _ _ _ => list ScoredVector
  | GenerateResponse _ _ _ _ => LlmResponse
  end.

(** ** Program trees *)

Inductive Prog (A : Type) : Type :=
| Ret (a : A)
| Throw (e : exn)
| Call (r : Request) (k : reply (Response r) -> Prog A).
Arguments Ret {A} a.
Arguments Throw {A} e.
Arguments Call {A} r k.

Fixpoint bind {A B : Type} (p : Prog A) (f : A -> Prog B) : Prog B :=
  match p with
  | Ret a => f a
  | Throw e => Throw e
  | Call r k => Call r (fun rp => bind (k rp) f)
  end.

(** A call whose failure propagates as a Python exception. *)
Definition call (r : Request) : Prog (Response r) :=
  Call r (fun rp =>
    match rp with
    | Ok x => Ret x
    | Raised msg => Throw (Exception msg)
    end).

(** [try: p  except ... as e: h e] *)
Fixpoint try_except {A : Type} (p : Prog A) (h : exn -> Prog A) : Prog A :=
  match p with
  | Ret a => Ret a
  | Throw e => h e
  | Call r k => Call r (fun rp => try_except (k rp) h)
  end.

Declare Scope prog_scope.
Delimit Scope prog_scope with prog.
Notation "x <- p ;; q" := (bind p (fun x => q))
  (at level 100, p at next level, right associativity) : prog_scope.
#[local] Open Scope prog_scope.

(** ** Running a program *)

Inductive Entry : Type :=
| Exchange (r : Request) (rp : reply (Response r)).

Inductive outcome (A : Type) : Type :=
| Returns (a : A)
| Raises (e : exn).
Arguments Returns {A} a.
Arguments Raises {A} e.

Definition handler (W : Type) : Type :=
  forall r : Request, W -> W * reply (Response r).

Fixpoint run {W A : Type} (h : handler W) (p : Prog A) (w : W)
  : W * list Entry * outcome A :=
  match p with
  | Ret a => (w, [], Returns a)
  | Throw e => (w, [], Raises e)
  | Call r k =>
      let '(w1, rp) := h r w in
      let '(w2, tr, res) := run h (k rp) w1 in
      (w2, Exchange r rp :: tr, res)
  end.

Definition world_of {W A : Type} (x : W * list Entry * outcome A) : W := x.1.1.
Definition trace_of {W A : Type} (x : W * list Entry * outcome A) : list Entry := x.1.2.
Definition outcome_of {W A : Type} (x : W * list Entry * outcome A) : outcome A := x.2.

(** ** Python built-ins used by the services *)

Module Py.

(** [range(start, stop, step)] for [step <> 0]; Python raises [ValueError]
    for [step = 0], which the callers below check first. *)
Definition range (start stop step : Z) : list Z :=
  let count :=
    if 0 <? step then (stop - start + step - 1) / step
    else (start - stop - step - 1) / (- step) in
  map (fun k => start + Z.of_nat k * step) (seq 0 (Z.to_nat count)).

(** [l[i:j]] for [0 <= i]; a [j] beyond the end is clamped, as in Python. *)
Definition slice {A : Type} (l : list A) (i j : Z) : list A :=
  take (Z.to_nat (j - i)) (drop (Z.to_nat i) l).

(** [len(l)] *)
Definition len {A : Type} (l : list A) : Z := Z.of_nat (length l).

(** [zip(xs, ys)]: stops at the shorter argument. *)
Fixpoint zip {A B : Type} (xs : list A) (ys : list B) : list (A * B) :=
  match xs, ys with
  | x :: xs', y :: ys' => (x, y) :: zip xs' ys'
  | _, _ => []
  end.

(** [enumerate(xs)] counting from [i]. *)
Fixpoint enumerate_from {A : Type} (i : Z) (xs : list A) : list (Z * A) :=
  match xs with
  | [] => []
  | x :: xs' => (i, x) :: enumerate_from (i + 1) xs'
  end.

Definition enumerate {A : Type} (xs : list A) : list (Z * A) := enumerate_from 0 xs.

(** [sum(xs)], added exactly. *)
Definition sum (xs : list Q) : Q := fold_left Qplus xs (0 # 1).

(** The integer nearest to [q], ties going to the even neighbour. *)
Definition round_half_even (q : Q) : Z :=
  let n := Qnum q in
  let d := Z.pos (Qden q) in
  let f := n / d in
  match (2 * (n mod d)) ?= d with
  | Lt => f
  | Gt => f + 1
  | Eq => if Z.even f then f else f + 1
  end.

(** [round(q, ndigits)] of an exact value. *)
Definition round (q : Q) (ndigits : nat) : Q :=
  let scale := Z.pow 10 (Z.of_nat ndigits) in
  Qred (Qmake (round_half_even (q * inject_Z scale)) (Z.to_pos scale)).

End Py.

Example range_250 : Py.range 0 250 100 = [0; 100; 200].
Proof. reflexivity. Qed.

Example range_200 : Py.range 0 200 100 = [0; 100].
Proof. reflexivity. Qed.

Example range_negative_step : Py.range 0 5 (-100) = [].
Proof. reflexivity. Qed.

(** ** PineconeService *)

Record UpsertResult : Type := mkUpsertResult {
  upserted_count : Z;
  upsert_namespace : string
}.

Record StorageResult : Type := mkStorageResult {
  vectors_stored : Z;
  storage_namespace : string;
  storage_user_id : string;
  storage_email_id : string
}.

(** [namespace or 'default'] *)
Definition or_default (namespace : string) : string :=
  if PyStr.falsy namespace then "default" else namespace.

(** The body of the [for i in range(0, len(vectors), batch_size)] loop of
    [upsert_vectors], iterated over the start indices still to visit. *)
Fixpoint upsert_loop (vectors : list PineconeVector) (namespace : string)
    (batch_size : Z) (starts : list Z) (total_upserted : Z) : Prog Z :=
  match starts with
  | [] => Ret total_upserted
  | i :: rest =>
      let batch := Py.slice vectors i (i + batch_size) in
      _ <- call (IndexUpsert batch namespace);;
      upsert_loop vectors namespace batch_size rest (total_upserted + Py.len batch)
  end.

(** [PineconeService.upsert_vectors].  Its [except Exception: raise] only
    logs and re-raises. *)
Definition upsert_vectors (vectors : list PineconeVector) (namespace : string)
    (batch_size : Z) : Prog UpsertResult :=
  if batch_size =? 0 then Throw (Exception "range() arg 3 must not be zero")
  else
    total_upserted <-
      upsert_loop vectors namespace batch_size
        (Py.range 0 (Py.len vectors) batch_size) 0;;
    Ret {| upserted_count := total_upserted;
           upsert_namespace := or_default namespace |}.

(** Truthiness of [match.metadata] and [match.values]: [None] and the empty
    container are falsy. *)
Definition truthy_metadata (m : option (gmap string MVal)) : bool :=
  match m with
  | Some md => negb (bool_decide (md = ∅))
  | None => false
  end.

Definition truthy_values (v : option vector) : bool :=
  match v with
  | Some (_ :: _) => true
  | _ => false
  end.

Definition format_match (include_metadata include_values : bool)
    (m : ScoredVector) : QueryResult :=
  {| qr_id := sv_id m;
     qr_score := sv_score m;
     qr_metadata :=
       if include_metadata && truthy_metadata (sv_metadata m)
       then sv_metadata m else None;
     qr_values :=
       if include_values && truthy_values (sv_values m)
       then sv_values m else None |}.

(** [PineconeService.query_vectors] *)
Definition query_vectors (query_vector : vector) (top_k : Z)
    (filter_metadata : option (gmap string MVal)) (namespace : string)
    (include_metadata include_values : bool) : Prog (list QueryResult) :=
  matches <- call (IndexQuery query_vector top_k filter_metadata namespace
                     include_metadata include_values);;
  Ret (map (format_match include_metadata include_values) matches).

(** The dictionary [store_documents] builds for one [(node, embedding)]. *)
Definition pinecone_vector_of (user_id email_id title : string)
    (ne : Node * vector) : PineconeVector :=
  let node := ne.1 in
  let metadata := node_metadata node in
  let metadata := <["text" := VStr (get_content node)]> metadata in
  let metadata := <["user_id" := VStr user_id]> metadata in
  let metadata := <["email_id" := VStr email_id]> metadata in
  let metadata := <["title" := VStr title]> metadata in
  {| pv_id := node_id node; pv_values := ne.2; pv_metadata := metadata |}.

(** [PineconeService.store_documents] *)
Definition store_documents (nodes : list Node) (embeddings : list vector)
    (user_id email_id title : string) : Prog StorageResult :=
  let namespace := namespace_of user_id email_id in
  let pinecone_vectors :=
    map (pinecone_vector_of user_id email_id title) (Py.zip nodes embeddings) in
  upsert_result <- upsert_vectors pinecone_vectors namespace 100;;
  Ret {| vectors_stored := upserted_count upsert_result;
         storage_namespace := namespace;
         storage_user_id := user_id;
         storage_email_id := email_id |}.

(** [PineconeService.search_documents]; [email_id] is added to the filter
    only when it is truthy. *)
Definition search_documents (query_vector : vector) (user_id : string)
    (top_k : Z) (email_id : option string) : Prog (list QueryResult) :=
  let namespace := search_namespace_of user_id in
  let filter_metadata : gmap string MVal := {[ "user_id" := VStr user_id ]} in
  let filter_metadata :=
    match email_id with
    | Some e => if PyStr.falsy e then filter_metadata
                else <["email_id" := VStr e]> filter_metadata
    | None => filter_metadata
    end in
  query_vectors query_vector top_k (Some filter_metadata) namespace true false.

(** ** The router: [/rag/store] and [/rag/query] *)

(** The [extra_info] dictionary attached to chunk number [idx]. *)
Definition chunk_extra_info (request : RagStoreRequest) (timestamp : string)
    (total : Z) (idx : Z) (chunk : string) : gmap string MVal :=
  <["user_id" := VStr (s_userId request)]>
  (<["email_id" := VStr (s_email request)]>
  (<["title" := VStr (s_title request)]>
  (<["chunk_index" := VInt idx]>
  (<["total_chunks" := VInt total]>
  (<["timestamp" := VStr timestamp]>
  (<["source_type" := VStr "email"]>
  (<["chunk_length" := VInt (PyStr.len chunk)]>
  (<["word_count" := VInt (PyStr.word_count chunk)]> ∅)))))))).

Definition chunk_documents (request : RagStoreRequest) (timestamp : string)
    (chunks : list string) : list Document :=
  map (fun ic =>
         {| doc_text := ic.2;
            extra_info :=
              chunk_extra_info request timestamp (Py.len chunks) ic.1 ic.2 |})
      (Py.enumerate chunks).

(** The two [except] clauses closing each endpoint:
    [except HTTPException: raise] and
    [except Exception as e: raise HTTPException(500, prefix + str(e))]. *)
Definition http_guard {A : Type} (prefix : string) (e : exn) : Prog A :=
  match e with
  | HTTPException status detail => Throw (HTTPException status detail)
  | Exception msg => Throw (HTTPException 500 (prefix +:+ msg))
  end.

(** [store_rag_data] *)
Definition store_rag_data (request : RagStoreRequest) : Prog RagStoreResponse :=
  try_except
    (if is_blank (s_content request)
     then Throw (HTTPException 400 "Content cannot be empty")
     else
       chunks <- call (SplitText 1024 150 (s_content request));;
       timestamp <- call Now;;
       docs <- Ret (chunk_documents request timestamp chunks);;
       nodes <- call (GetNodesFromDocuments 1024 150 docs);;
       embeddings <- call (EmbedTextsWhileStoring (map get_content nodes));;
       _ <- store_documents nodes embeddings
              (s_userId request) (s_email request) (s_title request);;
       Ret {| documentId := s_email request; indexed := true |})
    (http_guard "Failed to store data: ").

(** [metadata.get(key, default)] *)
Definition get_or (metadata : gmap string MVal) (key : string) (default : MVal) : MVal :=
  match metadata !! key with
  | Some v => v
  | None => default
  end.

(** One pass of the loop that fills [context_chunks]. *)
Definition context_chunk_of (m : QueryResult) : ContextChunk :=
  let metadata : gmap string MVal :=
    match qr_metadata m with Some md => md | None => ∅ end in
  {| cc_score := qr_score m;
     cc_title := get_or metadata "title" (VStr "Untitled");
     cc_text := get_or metadata "text" (VStr "");
     cc_timestamp := get_or metadata "timestamp" (VStr "");
     cc_email_id := get_or metadata "email_id" (VStr "");
     cc_chunk_index := get_or metadata "chunk_index" (VInt 0) |}.

(** [sum(chunk["score"] ...) / len(context_chunks) if context_chunks else 0.0],
    with the sum and the quotient taken exactly: for more than one chunk the
    value may differ from the one Python computes on doubles in the last
    decimal kept by [round]. *)
Definition average_score (context_chunks : list ContextChunk) : Q :=
  match context_chunks with
  | [] => 0 # 1
  | _ => (Py.sum (map cc_score context_chunks) / inject_Z (Py.len context_chunks))%Q
  end.

Definition no_information : string :=
  "I couldn't find any relevant information in your documents to answer this question.".

(** [retrieve_rag_data] *)
Definition retrieve_rag_data (request : RagRetrieveRequest) : Prog RagRetrieveResponse :=
  try_except
    (if is_blank (r_query request)
     then Throw (HTTPException 400 "Query cannot be empty")
     else
       query_embedding <- call (EmbedTextWhileSearching (r_query request));;
       let namespace := namespace_of (r_userId request) (r_email request) in
       pinecone_results <-
         query_vectors query_embedding (r_topK request)
           (Some {[ "user_id" := VStr (r_userId request) ]})
           namespace true false;;
       match pinecone_results with
       | [] => Ret {| answer := no_information; score := 0 # 1 |}
       | _ =>
           let context_chunks := map context_chunk_of pinecone_results in
           llm_response <-
             call (GenerateResponse (r_query request) context_chunks (3 # 10) 1024);;
           Ret {| answer := llm_answer llm_response;
                  score := Py.round (average_score context_chunks) 4 |}
       end)
    (http_guard "Failed to retrieve data: ").

(** The [filter_metadata] argument [retrieve_rag_data] passes. *)
Definition owner_filter (user_id : string) : option (gmap string MVal) :=
  Some {[ "user_id" := VStr user_id ]}.

(** ** A reference model of the collaborators

    The Pinecone index follows the contract the service relies on: records
    live in namespaces, [upsert] replaces a record with the same id inside
    the namespace or appends it, and [query] looks only at the requested
    namespace, keeps the records whose metadata agrees with every entry of
    the filter, ranks them by similarity (best first) and returns the first
    [top_k].  An upsert of a vector whose length is not
    the index dimension is refused. *)

Module Pinecone.

Record Index : Type := mkIndex {
  dimension : nat;
  namespaces : gmap string (list PineconeVector)
}.

Definition records (idx : Index) (namespace : string) : list PineconeVector :=
  default [] (namespaces idx !! namespace).

Fixpoint upsert_one (v : PineconeVector) (rs : list PineconeVector)
  : list PineconeVector :=
  match rs with
  | [] => [v]
  | r :: rest =>
      if bool_decide (pv_id r = pv_id v) then v :: rest
      else r :: upsert_one v rest
  end.

Definition well_sized (idx : Index) (v : PineconeVector) : bool :=
  Nat.eqb (length (pv_values v)) (dimension idx).

Definition upsert (idx : Index) (batch : list PineconeVector) (namespace : string)
  : Index * reply unit :=
  if forallb (well_sized idx) batch then
    ({| dimension := dimension idx;
        namespaces :=
          <[namespace := fold_left (fun rs v => upsert_one v rs) batch
                           (records idx namespace)]> (namespaces idx) |},
     Ok tt)
  else (idx, Raised "Vector dimension does not match the dimension of the index").

(** Metadata filter: every entry of the filter is present in the record. *)
Definition matches_filter (filter : option (gmap string MVal))
    (metadata : gmap string MVal) : bool :=
  match filter with
  | None => true
  | Some f =>
      forallb (fun kv : string * MVal => bool_decide (metadata !! kv.1 = Some kv.2))
              (map_to_list f)
  end.

Fixpoint insert_ranked (m : ScoredVector) (ms : list ScoredVector)
  : list ScoredVector :=
  match ms with
  | [] => [m]
  | m' :: rest =>
      if Qle_bool (sv_score m) (sv_score m') then m' :: insert_ranked m rest
      else m :: ms
  end.

Definition rank (ms : list ScoredVector) : list ScoredVector :=
  fold_right insert_ranked [] ms.

Definition scored (similarity : vector -> vector -> Q) (query_vector : vector)
    (include_metadata include_values : bool) (r : PineconeVector) : ScoredVector :=
  {| sv_id := pv_id r;
     sv_score := similarity query_vector (pv_values r);
     sv_metadata := if include_metadata then Some (pv_metadata r) else None;
     sv_values := if include_values then Some (pv_values r) else None |}.

Definition query (similarity : vector -> vector -> Q) (idx : Index)
    (query_vector : vector) (top_k : Z) (filter : option (gmap string MVal))
    (namespace : string) (include_metadata include_values : bool)
  : list ScoredVector :=
  let hits :=
    List.filter (fun r => matches_filter filter (pv_metadata r))
                (records idx namespace) in
  take (Z.to_nat top_k)
       (rank (map (scored similarity query_vector include_metadata include_values)
                  hits)).

End Pinecone.

(** The remaining collaborators, as plain functions. *)
Record Env : Type := mkEnv {
  split_text : Z -> Z -> string -> reply (list string);
  get_nodes_from_documents : Z -> Z -> list Document -> reply (list Node);
  now : reply string;
  embed_text_while_searching : string -> reply vector;
  embed_texts_while_storing : list string -> reply (list vector);
  similarity : vector -> vector -> Q;
  generate_response : string -> list ContextChunk -> Q -> Z -> reply LlmResponse
}.

Definition handle (env : Env) : handler Pinecone.Index :=
  fun r =>
    match r return Pinecone.Index -> Pinecone.Index * reply (Response r) with
    | SplitText size overlap text => fun idx => (idx, split_text env size overlap text)
    | GetNodesFromDocuments size overlap docs =>
        fun idx => (idx, get_nodes_from_documents env size overlap docs)
    | Now => fun idx => (idx, now env)
    | EmbedTextWhileSearching text => fun idx => (idx, embed_text_while_searching env text)
    | EmbedTextsWhileStoring texts => fun idx => (idx, embed_texts_while_storing env texts)
    | IndexUpsert batch namespace => fun idx => Pinecone.upsert idx batch namespace
    | IndexQuery qv top_k filter namespace incl_md incl_vals =>
        fun idx =>
          (idx, Ok (Pinecone.query (similarity env) idx qv top_k filter namespace
                      incl_md incl_vals))
    | GenerateResponse query chunks temperature max_tokens =>
        fun idx => (idx, generate_response env query chunks temperature max_tokens)
    end.

(** A small concrete environment: a text is one chunk, a document becomes one
    node named after its chunk index, an embedding has two coordinates, the
    similarity is the dot product and the chat model answers with the title
    of the best chunk. *)
Module Demo.

Definition node_of (d : Document) : Node :=
  {| node_id :=
       match extra_info d !! "chunk_index" with
       | Some (VInt i) => "node-" +:+ pretty i
       | _ => "node"
       end;
     get_content := doc_text d;
     node_metadata := extra_info d |}.

Definition embed (text : string) : vector :=
  [inject_Z (PyStr.len text); 1 # 1].

Fixpoint dot (a b : vector) : Q :=
  match a, b with
  | x :: a', y :: b' => (x * y + dot a' b')%Q
  | _, _ => 0 # 1
  end.

Definition title_of (chunks : list ContextChunk) : string :=
  match chunks with
  | c :: _ => match cc_title c with VStr t => t | VInt _ => "" end
  | [] => ""
  end.

Definition env : Env :=
  {| split_text := fun _ _ text => Ok [text];
     get_nodes_from_documents := fun _ _ docs => Ok (map node_of docs);
     now := Ok "2024-01-01T00:00:00";
     embed_text_while_searching := fun text => Ok (embed text);
     embed_texts_while_storing := fun texts => Ok (map embed texts);
     similarity := dot;
     generate_response := fun _ chunks _ _ =>
       Ok {| llm_answer := title_of chunks; llm_total_tokens := 0 |} |}.

Definition empty_index : Pinecone.Index :=
  {| Pinecone.dimension := 2; Pinecone.namespaces := ∅ |}.

End Demo.

(** ** Scenarios in the small environment *)

Module Scenario.

Definition h : handler Pinecone.Index := handle Demo.env.

(** Two tenants whose ids differ and whose namespaces coincide. *)
Definition store_a_b : RagStoreRequest :=
  {| s_userId := "a_b"; s_email := "c"; s_title := "T"; s_content := "secret" |}.

Definition ask_a : RagRetrieveRequest :=
  {| r_userId := "a"; r_email := "b_c"; r_query := "secret"; r_topK := 10 |}.

Definition after_a_b := run h (store_rag_data store_a_b) Demo.empty_index.

(** The end-to-end scenario of the specification. *)
Definition store_u1 : RagStoreRequest :=
  {| s_userId := "u1"; s_email := "d1"; s_title := "T"; s_content := "hello world" |}.

Definition ask_u1 : RagRetrieveRequest :=
  {| r_userId := "u1"; r_email := "d1"; r_query := "hello"; r_topK := 5 |}.

Definition ask_u2 : RagRetrieveRequest :=
  {| r_userId := "u2"; r_email := "d1"; r_query := "hello"; r_topK := 5 |}.

Definition after_u1 := run h (store_rag_data store_u1) Demo.empty_index.

End Scenario.

Module Scored.

(** An index holding three records of tenant ["u1"] whose similarities to
    the embedding of ["q"] are 0.9, 0.7 and 0.5. *)
Definition record (id : string) (x : Q) : PineconeVector :=
  {| pv_id := id;
     pv_values := [x; 0 # 1];
     pv_metadata := <["user_id" := VStr "u1"]> {[ "title" := VStr id ]} |}.

Definition index : Pinecone.Index :=
  {| Pinecone.dimension := 2;
     Pinecone.namespaces :=
       {[ "user_u1_d1" := [record "n0" (9 # 10); record "n1" (7 # 10);
                           record "n2" (5 # 10)] ]} |}.

Definition ask : RagRetrieveRequest :=
  {| r_userId := "u1"; r_email := "d1"; r_query := "q"; r_topK := 10 |}.

Definition matches : list ScoredVector :=
  Pinecone.query Demo.dot index (Demo.embed "q") 10 (owner_filter "u1")
    "user_u1_d1" true false.

End Scored.

Module Partial.

Definition good (i : nat) : PineconeVector :=
  {| pv_id := "v" +:+ pretty i; pv_values := [1 # 1; 0 # 1];
     pv_metadata := {[ "user_id" := VStr "u1" ]} |}.

(** The vector at position 120 has three coordinates. *)
Definition bad : PineconeVector :=
  {| pv_id := "v120"; pv_values := [1 # 1; 0 # 1; 0 # 1];
     pv_metadata := {[ "user_id" := VStr "u1" ]} |}.

Definition vectors : list PineconeVector :=
  map good (seq 0 120) ++ bad :: map good (seq 121 129).

Definition result :=
  run Scenario.h (upsert_vectors vectors "user_u1_d1" 100) Demo.empty_index.

End Partial.

(** ** The service singletons

    [get_embedding_service], [get_pinecone_service] and [get_llm_service]
    have the same body:
<<
    global _instance
    if _instance is None:
        _instance = Service(...)
    return _instance
>>
    A caller reads the global and tests it, calls the constructor, stores the
    new object in the global, and reads the global again to return it.  No
    lock is taken, so callers running on different threads may interleave
    between any two of these steps.  Objects are numbered in the order of
    their construction.  The constructor is taken to succeed; one that
    raises (no API key for Pinecone or the chat model) leaves the global
    unset and ends the call with its exception. *)

Module Singleton.

Inductive pc : Type :=
| AtCheck
| AtConstruct
| AtAssign (fresh : nat)
| AtReturn
| Returned (result : option nat).

Record Process : Type := mkProcess {
  instance : option nat;
  constructed : nat;
  callers : list pc
}.

Definition step_caller (global : option nat) (count : nat) (p : pc)
  : option nat * nat * pc :=
  match p with
  | AtCheck =>
      match global with
      | None => (global, count, AtConstruct)
      | Some _ => (global, count, AtReturn)
      end
  | AtConstruct => (global, S count, AtAssign (S count))
  | AtAssign fresh => (Some fresh, count, AtReturn)
  | AtReturn => (global, count, Returned global)
  | Returned result => (global, count, Returned result)
  end.

(** Caller number [t] takes its next step. *)
Definition step (s : Process) (t : nat) : Process :=
  match callers s !! t with
  | None => s
  | Some p =>
      let '(global, count, p') := step_caller (instance s) (constructed s) p in
      {| instance := global; constructed := count;
         callers := <[t := p']> (callers s) |}
  end.

Definition run_schedule (schedule : list nat) (s : Process) : Process :=
  fold_left step schedule s.

(** [k] callers about to make the first calls of the process. *)
Definition start (k : nat) : Process :=
  {| instance := None; constructed := 0; callers := replicate k AtCheck |}.

(** Each caller finishes before the next one begins. *)
Definition one_after_another (k : nat) : list nat :=
  flat_map (fun t => replicate 4 t) (seq 0 k).

(** What is left when the first [j] of [k] callers have finished. *)
Definition settled (j k : nat) : Process :=
  {| instance := match j with O => None | S _ => Some 1%nat end;
     constructed := match j with O => 0 | S _ => 1 end;
     callers := replicate j (Returned (Some 1%nat)) ++ replicate (k - j) AtCheck |}.

End Singleton.

(** Collaborators that accept everything and answer with nothing; the
    world counts the requests. *)
Definition agreeable : handler nat :=
  fun r =>
    match r return nat -> nat * reply (Response r) with
    | SplitText _ _ text => fun n => (S n, Ok [text])
    | GetNodesFromDocuments _ _ docs => fun n => (S n, Ok (map Demo.node_of docs))
    | Now => fun n => (S n, Ok "2024-01-01T00:00:00")
    | EmbedTextWhileSearching text => fun n => (S n, Ok (Demo.embed text))
    | EmbedTextsWhileStoring texts => fun n => (S n, Ok (map Demo.embed texts))
    | IndexUpsert _ _ => fun n => (S n, Ok tt)
    | IndexQuery _ _ _ _ _ _ => fun n => (S n, Ok [])
    | GenerateResponse _ _ _ _ =>
        fun n => (S n, Ok {| llm_answer := ""; llm_total_tokens := 0 |})
    end.

(** ** [EmbeddingService.find_most_similar]

    [compute_similarity] is numpy arithmetic on floats; the ranking below
    takes it as a function into the rationals. *)

Module Embedding.

(** One element of [similarities]: [{"index": idx, "similarity": sim}]. *)
Record Similarity : Type := mkSimilarity {
  index : Z;
  similarity : Q
}.

(** [l[:k]]: a negative [k] counts from the end. *)
Definition prefix {A : Type} (l : list A) (k : Z) : list A :=
  if k <? 0 then take (Z.to_nat (Py.len l + k)) l else take (Z.to_nat k) l.

(** One step of [similarities.sort(key=..., reverse=True)]: the sort is
    stable, so an element goes before the first one whose key is not
    greater than its own. *)
Fixpoint insert_descending (x : Similarity) (l : list Similarity) : list Similarity :=
  match l with
  | [] => [x]
  | y :: rest =>
      if Qle_bool (similarity y) (similarity x) then x :: l
      else y :: insert_descending x rest
  end.

Definition sort_descending (l : list Similarity) : list Similarity :=
  fold_right insert_descending [] l.

Definition find_most_similar (compute_similarity : vector -> vector -> Q)
    (query_embedding : vector) (candidate_embeddings : list vector) (top_k : Z)
  : list Similarity :=
  let similarities :=
    map (fun ic => {| index := ic.1;
                      similarity := compute_similarity query_embedding ic.2 |})
        (Py.enumerate candidate_embeddings) in
  prefix (sort_descending similarities) top_k.

(** [a] is ranked before [b]: a greater similarity, or the same similarity
    and an earlier position among the candidates. *)
Definition before (a b : Similarity) : Prop :=
  (similarity b < similarity a)%Q
  \/ ((similarity a == similarity b)%Q /\ index a < index b).

End Embedding.

(** ** Setting up and emptying the index

    The constructor of [PineconeService] and [delete_vectors] talk to the
    Pinecone client through calls the pipeline never makes; they get their
    own commands, with the same kind of program tree. *)

Module Control.

(** The argument of [index.delete]. *)
Inductive Deletion : Type :=
| DeleteAll
| DeleteIds (ids : list string)
| DeleteFilter (filter : gmap string MVal).

Inductive Command : Type :=
| NewClient (api_key : string)
| ListIndexes
| CreateIndex (name : string) (dimension : Z) (metric cloud region : string)
| OpenIndex (name : string)
| IndexDelete (what : Deletion) (namespace : string).

Definition Answer (c : Command) : Type :=
  match c with
  | ListIndexes => list string
  | _ => unit
  end.

Inductive Script (A : Type) : Type :=
| Done (a : A)
| Fail (e : exn)
| Ask (c : Command) (k : reply (Answer c) -> Script A).
Arguments Done {A} a.
Arguments Fail {A} e.
Arguments Ask {A} c k.

Fixpoint bind {A B : Type} (p : Script A) (f : A -> Script B) : Script B :=
  match p with
  | Done a => f a
  | Fail e => Fail e
  | Ask c k => Ask c (fun rp => bind (k rp) f)
  end.

Definition ask (c : Command) : Script (Answer c) :=
  Ask c (fun rp =>
    match rp with
    | Ok x => Done x
    | Raised msg => Fail (Exception msg)
    end).

Inductive Step : Type :=
| Exchanged (c : Command) (rp : reply (Answer c)).

Definition command_of (s : Step) : Command :=
  match s with Exchanged c _ => c end.

Definition driver (W : Type) : Type :=
  forall c : Command, W -> W * reply (Answer c).

Fixpoint run {W A : Type} (d : driver W) (p : Script A) (w : W)
  : W * list Step * outcome A :=
  match p with
  | Done a => (w, [], Returns a)
  | Fail e => (w, [], Raises e)
  | Ask c k =>
      let '(w1, rp) := d c w in
      let '(w2, tr, res) := run d (k rp) w1 in
      (w2, Exchanged c rp :: tr, res)
  end.

(** Truthiness of an optional string: [None] and [""] are falsy. *)
Definition truthy (value : option string) : bool :=
  match value with
  | Some (String _ _) => true
  | _ => false
  end.

(** [value or os.getenv(key)] *)
Definition or_getenv (value : option string) (environ : gmap string string)
    (key : string) : option string :=
  if truthy value then value else environ !! key.

(** [value or os.getenv(key, default)] *)
Definition or_getenv_default (value : option string)
    (environ : gmap string string) (key default : string) : string :=
  match value with
  | Some (String c rest) => String c rest
  | _ => match environ !! key with
         | Some found => found
         | None => default
         end
  end.

(** The attributes [__init__] sets before it connects. *)
Record Service : Type := mkService {
  api_key : option string;
  environment : string;
  index_name : string;
  dimension : Z
}.

Definition missing_api_key : string :=
  "Pinecone API key not found. Set PINECONE_API_KEY environment variable.".

(** [PineconeService._ensure_index_exists] *)
Definition ensure_index_exists (self : Service) : Script unit :=
  bind (ask ListIndexes) (fun existing_indexes =>
    if bool_decide (index_name self ∈ existing_indexes)
    then Done tt
    else ask (CreateIndex (index_name self) (dimension self)
                "cosine" "aws" "us-east-1")).

(** [PineconeService.__init__] *)
Definition init (environ : gmap string string)
    (api_key environment index_name : option string) (dimension : Z)
  : Script Service :=
  let self :=
    {| Control.api_key := or_getenv api_key environ "PINECONE_API_KEY";
       Control.environment :=
         or_getenv_default environment environ "PINECONE_ENVIRONMENT" "gcp-starter";
       Control.index_name :=
         or_getenv_default index_name environ "PINECONE_INDEX_NAME" "rag-memories";
       Control.dimension := dimension |} in
  match Control.api_key self with
  | Some (String c rest) =>
      bind (ask (NewClient (String c rest))) (fun _ =>
      bind (ensure_index_exists self) (fun _ =>
      bind (ask (OpenIndex (Control.index_name self))) (fun _ =>
      Done self)))
  | _ => Fail (Exception missing_api_key)
  end.

(** The dictionary [delete_vectors] returns. *)
Inductive Deleted : Type :=
| DeletedAll (namespace : string)
| DeletedIds (count : Z) (namespace : string)
| DeletedByFilter (filter : gmap string MVal) (namespace : string).

Definition nothing_to_delete : string :=
  "Must provide either ids, filter_metadata, or delete_all=True".

(** The last two branches of [delete_vectors]: [elif filter_metadata] and
    [else]; an empty dictionary is falsy. *)
Definition delete_by_filter (filter_metadata : option (gmap string MVal))
    (namespace : string) : Script Deleted :=
  match filter_metadata with
  | Some filter =>
      if bool_decide (filter = ∅) then Fail (Exception nothing_to_delete)
      else
        bind (ask (IndexDelete (DeleteFilter filter) namespace)) (fun _ =>
        Done (DeletedByFilter filter (or_default namespace)))
  | None => Fail (Exception nothing_to_delete)
  end.

(** [PineconeService.delete_vectors]; an empty list of ids is falsy. *)
Definition delete_vectors (ids : option (list string))
    (filter_metadata : option (gmap string MVal)) (namespace : string)
    (delete_all : bool) : Script Deleted :=
  if delete_all then
    bind (ask (IndexDelete DeleteAll namespace)) (fun _ =>
    Done (DeletedAll (or_default namespace)))
  else
    match ids with
    | Some (id :: rest) =>
        bind (ask (IndexDelete (DeleteIds (id :: rest)) namespace)) (fun _ =>
        Done (DeletedIds (Py.len (id :: rest)) (or_default namespace)))
    | _ => delete_by_filter filter_metadata namespace
    end.

(** A reference for the client: the account holds a list of index names,
    creating an index that exists is refused, an index must exist to be
    opened, and a deletion removes from one namespace all records, the
    records with the given ids, or the records passing the filter. *)
Record Plane : Type := mkPlane {
  names : list string;
  store : Pinecone.Index
}.

Definition remaining (what : Deletion) (rs : list PineconeVector)
  : list PineconeVector :=
  match what with
  | DeleteAll => []
  | DeleteIds ids =>
      List.filter (fun r => negb (bool_decide (pv_id r ∈ ids))) rs
  | DeleteFilter filter =>
      List.filter
        (fun r => negb (Pinecone.matches_filter (Some filter) (pv_metadata r))) rs
  end.

Definition delete (idx : Pinecone.Index) (what : Deletion) (namespace : string)
  : Pinecone.Index :=
  {| Pinecone.dimension := Pinecone.dimension idx;
     Pinecone.namespaces :=
       <[namespace := remaining what (Pinecone.records idx namespace)]>
         (Pinecone.namespaces idx) |}.

Definition reference : driver Plane :=
  fun c =>
    match c return Plane -> Plane * reply (Answer c) with
    | NewClient _ => fun w => (w, Ok tt)
    | ListIndexes => fun w => (w, Ok (names w))
    | CreateIndex name _ _ _ _ =>
        fun w =>
          if bool_decide (name ∈ names w)
          then (w, Raised "ALREADY_EXISTS")
          else ({| names := names w ++ [name]; store := store w |}, Ok tt)
    | OpenIndex name =>
        fun w =>
          if bool_decide (name ∈ names w) then (w, Ok tt)
          else (w, Raised "NOT_FOUND")
    | IndexDelete what namespace =>
        fun w =>
          ({| names := names w; store := delete (store w) what namespace |}, Ok tt)
    end.

End Control.

(** * Properties *)

(** ** Running compound programs *)

Lemma run_bind {W A B : Type} (h : handler W) (p : Prog A) (f : A -> Prog B) (w : W) :
  run h (bind p f) w =
  match run h p w with
  | (w1, tr1, Returns a) =>
      let '(w2, tr2, res) := run h (f a) w1 in (w2, (tr1 ++ tr2)%list, res)
  | (w1, tr1, Raises e) => (w1, tr1, Raises e)
  end.
Proof.
  revert w. induction p as [a | e | r k IH]; intros w; simpl.
  - destruct (run h (f a) w) as [[w2 tr2] res]. reflexivity.
  - reflexivity.
  - destruct (h r w) as [w1 rp]. rewrite IH.
    destruct (run h (k rp) w1) as [[w2 tr] [a | e]]; [|reflexivity].
    destruct (run h (f a) w2) as [[w3 tr3] res]. reflexivity.
Qed.

Lemma run_try_except {W A : Type} (h : handler W) (p : Prog A)
    (g : exn -> Prog A) (w : W) :
  run h (try_except p g) w =
  match run h p w with
  | (w1, tr1, Returns a) => (w1, tr1, Returns a)
  | (w1, tr1, Raises e) =>
      let '(w2, tr2, res) := run h (g e) w1 in (w2, (tr1 ++ tr2)%list, res)
  end.
Proof.
  revert w. induction p as [a | e | r k IH]; intros w; simpl.
  - reflexivity.
  - destruct (run h (g e) w) as [[w2 tr2] res]. reflexivity.
  - destruct (h r w) as [w1 rp]. rewrite IH.
    destruct (run h (k rp) w1) as [[w2 tr] [a | e]]; [reflexivity|].
    destruct (run h (g e) w2) as [[w3 tr3] res]. reflexivity.
Qed.

Lemma run_call {W : Type} (h : handler W) (r : Request) (w : W) :
  run h (call r) w =
  ((h r w).1, [Exchange r (h r w).2],
   match (h r w).2 with
   | Ok x => Returns x
   | Raised msg => Raises (Exception msg)
   end).
Proof.
  unfold call. simpl. destruct (h r w) as [w1 [x | msg]]; reflexivity.
Qed.

Lemma run_http_guard {W A : Type} (h : handler W) (prefix : string) (e : exn) (w : W) :
  run h (http_guard (A := A) prefix e) w =
  (w, [], Raises match e with
                 | HTTPException status detail => HTTPException status detail
                 | Exception msg => HTTPException 500 (prefix +:+ msg)
                 end).
Proof. destruct e; reflexivity. Qed.

(** ** Blank strings *)

Lemma lstrip_empty_iff (s : string) :
  PyStr.lstrip s = EmptyString <-> PyStr.all_space s = true.
Proof.
  induction s as [| c s IH]; simpl.
  - tauto.
  - destruct (PyStr.isspace c); simpl.
    + exact IH.
    + split; discriminate.
Qed.

Lemma all_space_rev_onto (s acc : string) :
  PyStr.all_space (PyStr.rev_onto s acc) = PyStr.all_space s && PyStr.all_space acc.
Proof.
  revert acc. induction s as [| c s IH]; intros acc; simpl.
  - reflexivity.
  - rewrite IH. simpl. destruct (PyStr.isspace c), (PyStr.all_space s); reflexivity.
Qed.

Lemma all_space_rev (s : string) : PyStr.all_space (PyStr.rev s) = PyStr.all_space s.
Proof. unfold PyStr.rev. rewrite all_space_rev_onto. simpl. apply andb_true_r. Qed.

Lemma rev_onto_empty (s acc : string) :
  PyStr.rev_onto s acc = EmptyString -> s = EmptyString /\ acc = EmptyString.
Proof.
  revert acc. induction s as [| c s IH]; intros acc; simpl.
  - auto.
  - intros H. apply IH in H. destruct H as [_ H]. discriminate.
Qed.

Lemma lstrip_idempotent (s : string) : PyStr.lstrip (PyStr.lstrip s) = PyStr.lstrip s.
Proof.
  induction s as [| c s IH]; simpl; [reflexivity|].
  destruct (PyStr.isspace c) eqn:E; [exact IH|]. simpl. rewrite E. reflexivity.
Qed.

Lemma strip_empty_iff (s : string) :
  PyStr.strip s = EmptyString <-> PyStr.all_space s = true.
Proof.
  unfold PyStr.strip, PyStr.rstrip. split.
  - intros H. apply rev_onto_empty in H. destruct H as [H _].
    apply lstrip_empty_iff in H. rewrite all_space_rev in H.
    apply lstrip_empty_iff. rewrite <- lstrip_idempotent.
    apply lstrip_empty_iff. exact H.
  - intros H. apply lstrip_empty_iff in H. rewrite H. reflexivity.
Qed.

Lemma len_zero_iff (s : string) : PyStr.len s = 0 <-> s = EmptyString.
Proof.
  unfold PyStr.len. destruct s; simpl; split; try reflexivity; try discriminate; lia.
Qed.

(** The guard of both endpoints fires exactly on the empty and the
    white-space-only strings. *)
Lemma is_blank_iff (s : string) : is_blank s = true <-> PyStr.all_space s = true.
Proof.
  unfold is_blank. rewrite orb_true_iff, Z.eqb_eq, len_zero_iff, strip_empty_iff.
  split; [|auto]. intros [H | H]; [|exact H]. destruct s; [reflexivity|discriminate].
Qed.

Lemma is_blank_false_iff (s : string) : is_blank s = false <-> PyStr.all_space s = false.
Proof.
  pose proof (is_blank_iff s) as H.
  destruct (is_blank s), (PyStr.all_space s); intuition congruence.
Qed.

(** ** The query endpoint, step by step *)

Definition query_request (request : RagRetrieveRequest) (query_embedding : vector)
  : Request :=
  IndexQuery query_embedding (r_topK request)
    (Some {[ "user_id" := VStr (r_userId request) ]})
    (namespace_of (r_userId request) (r_email request)) true false.

Definition generate_request (request : RagRetrieveRequest)
    (matches : list ScoredVector) : Request :=
  GenerateResponse (r_query request)
    (map context_chunk_of (map (format_match true false) matches)) (3 # 10) 1024.

Definition retrieve_failure (msg : string) : outcome RagRetrieveResponse :=
  Raises (HTTPException 500 ("Failed to retrieve data: " +:+ msg)).

Lemma run_retrieve_rag_data {W : Type} (h : handler W) (w : W)
    (request : RagRetrieveRequest) :
  is_blank (r_query request) = false ->
  run h (retrieve_rag_data request) w =
  let embed := EmbedTextWhileSearching (r_query request) in
  let '(w1, rp1) := h embed w in
  match rp1 with
  | Raised msg => (w1, [Exchange embed (Raised msg)], retrieve_failure msg)
  | Ok v =>
      let '(w2, rp2) := h (query_request request v) w1 in
      match rp2 with
      | Raised msg =>
          (w2, [Exchange embed (Ok v);
                Exchange (query_request request v) (Raised msg)],
           retrieve_failure msg)
      | Ok [] =>
          (w2, [Exchange embed (Ok v);
                Exchange (query_request request v) (Ok [])],
           Returns {| answer := no_information; score := 0 # 1 |})
      | Ok (m :: ms) =>
          let '(w3, rp3) := h (generate_request request (m :: ms)) w2 in
          (w3, [Exchange embed (Ok v);
                Exchange (query_request request v) (Ok (m :: ms));
                Exchange (generate_request request (m :: ms)) rp3],
           match rp3 with
           | Raised msg => retrieve_failure msg
           | Ok llm_response =>
               Returns
                 {| answer := llm_answer llm_response;
                    score :=
                      Py.round
                        (average_score
                           (map context_chunk_of
                              (map (format_match true false) (m :: ms)))) 4 |}
           end)
      end
  end.
Proof.
  intros Hq. unfold retrieve_rag_data, query_vectors, generate_request, query_request.
  rewrite Hq. simpl.
  destruct (h (EmbedTextWhileSearching (r_query request)) w) as [w1 [v | msg]];
    simpl; [|reflexivity].
  destruct (h (IndexQuery v _ _ _ _ _) w1) as [w2 [[| m ms] | msg]];
    simpl; try reflexivity.
  destruct (h (GenerateResponse _ _ _ _) w2) as [w3 [resp | msg]];
    reflexivity.
Qed.

(** ** Batches *)

(** The batches the loop of [upsert_vectors] cuts. *)
Definition batches_of (vectors : list PineconeVector) (batch_size : Z)
  : list (list PineconeVector) :=
  map (fun i => Py.slice vectors i (i + batch_size))
      (Py.range 0 (Py.len vectors) batch_size).

Section Batches.
Context {A : Type}.
Implicit Types l : list A.

Lemma concat_windows l (b k0 c : nat) :
  concat (map (fun k => take b (drop (k * b) l)) (seq k0 c))
  = take (c * b) (drop (k0 * b) l).
Proof.
  revert k0. induction c as [| c IH]; intros k0; simpl.
  - reflexivity.
  - rewrite IH. replace (S k0 * b)%nat with (k0 * b + b)%nat by lia.
    rewrite <- drop_drop. apply take_take_drop.
Qed.

Lemma slice_window l (bs : Z) (k : nat) :
  0 < bs ->
  Py.slice l (0 + Z.of_nat k * bs) (0 + Z.of_nat k * bs + bs)
  = take (Z.to_nat bs) (drop (k * Z.to_nat bs) l).
Proof.
  intros Hbs. unfold Py.slice. f_equal; [f_equal; lia|]. f_equal. lia.
Qed.

Lemma slice_incl l (i j : Z) (x : A) : In x (Py.slice l i j) -> In x l.
Proof.
  unfold Py.slice. rewrite <- !list_elem_of_In. intros H.
  apply elem_of_take in H as (n & H & _). rewrite lookup_drop in H.
  apply list_elem_of_lookup. eauto.
Qed.
End Batches.

Lemma range_count (n bs : Z) :
  0 < bs -> 0 <= n ->
  Py.range 0 n bs
  = map (fun k => 0 + Z.of_nat k * bs) (seq 0 (Z.to_nat ((n + bs - 1) / bs))).
Proof.
  intros Hbs Hn. unfold Py.range.
  destruct (0 <? bs) eqn:E; [|apply Z.ltb_ge in E; lia].
  replace (n - 0 + bs - 1) with (n + bs - 1) by lia. reflexivity.
Qed.

Lemma batches_of_windows (vectors : list PineconeVector) (bs : Z) :
  0 < bs ->
  batches_of vectors bs
  = map (fun k => take (Z.to_nat bs) (drop (k * Z.to_nat bs) vectors))
        (seq 0 (Z.to_nat ((Py.len vectors + bs - 1) / bs))).
Proof.
  intros Hbs. unfold batches_of. rewrite range_count by (unfold Py.len; lia).
  rewrite map_map. apply map_ext. intros k. apply slice_window. exact Hbs.
Qed.

(** The batches are consecutive pieces of the input, in order. *)
Lemma concat_batches_of (vectors : list PineconeVector) (bs : Z) :
  0 < bs -> concat (batches_of vectors bs) = vectors.
Proof.
  intros Hbs. rewrite batches_of_windows by exact Hbs.
  rewrite concat_windows. simpl. apply take_ge.
  unfold Py.len.
  set (n := Z.of_nat (length vectors)).
  assert (Hn : 0 <= n) by (unfold n; lia).
  assert (H : n <= ((n + bs - 1) / bs) * bs).
  { pose proof (Z.div_mod (n + bs - 1) bs ltac:(lia)) as Hd.
    pose proof (Z.mod_pos_bound (n + bs - 1) bs Hbs) as Hm. nia. }
  assert (Hc : 0 <= (n + bs - 1) / bs) by (apply Z.div_pos; lia).
  unfold n in *. nia.
Qed.

(** No batch is empty and none exceeds the batch size. *)
Lemma batches_of_sizes (vectors : list PineconeVector) (bs : Z) :
  0 < bs ->
  Forall (fun batch => 0 < Py.len batch <= bs) (batches_of vectors bs).
Proof.
  intros Hbs. rewrite batches_of_windows by exact Hbs.
  apply List.Forall_forall. intros batch Hin.
  apply in_map_iff in Hin as (k & <- & Hk). apply in_seq in Hk.
  unfold Py.len in *. rewrite length_take, length_drop.
  set (n := Z.of_nat (length vectors)) in *.
  assert (Hlt : Z.of_nat k * bs < n).
  { assert (Hk' : Z.of_nat k <= (n + bs - 1) / bs - 1) by lia.
    pose proof (Z.div_mod (n + bs - 1) bs ltac:(lia)) as Hd.
    pose proof (Z.mod_pos_bound (n + bs - 1) bs Hbs) as Hm. nia. }
  unfold n in *. nia.
Qed.

Example batches_of_5_by_2 (a b c d e : PineconeVector) :
  batches_of [a; b; c; d; e] 2 = [[a; b]; [c; d]; [e]].
Proof. reflexivity. Qed.

(** ** Upserting batch by batch *)

(** [batch_run h ns w batches w' tr failure]: starting in world [w], the
    batches are handed to the index one after the other, in order; the run
    stops after the last batch ([failure = None]) or at the first batch the
    index refuses ([failure = Some msg]), leaving the world [w'] and having
    exchanged exactly [tr] with the index. *)
Inductive batch_run {W : Type} (h : handler W) (namespace : string)
  : W -> list (list PineconeVector) -> W -> list Entry -> option string -> Prop :=
| batch_run_done (w : W) :
    batch_run h namespace w [] w [] None
| batch_run_stored (w w1 w2 : W) batch batches tr failure :
    h (IndexUpsert batch namespace) w = (w1, Ok tt) ->
    batch_run h namespace w1 batches w2 tr failure ->
    batch_run h namespace w (batch :: batches) w2
      (Exchange (IndexUpsert batch namespace) (Ok tt) :: tr) failure
| batch_run_refused (w w1 : W) batch batches msg :
    h (IndexUpsert batch namespace) w = (w1, Raised msg) ->
    batch_run h namespace w (batch :: batches) w1
      [Exchange (IndexUpsert batch namespace) (Raised msg)] (Some msg).

Definition loop_outcome (total : Z) (failure : option string) : outcome Z :=
  match failure with
  | None => Returns total
  | Some msg => Raises (Exception msg)
  end.

Lemma run_upsert_loop {W : Type} (h : handler W) (vectors : list PineconeVector)
    (namespace : string) (bs : Z) (starts : list Z) (total : Z) (w : W) :
  exists w' tr failure,
    let batches := map (fun i => Py.slice vectors i (i + bs)) starts in
    run h (upsert_loop vectors namespace bs starts total) w
    = (w', tr, loop_outcome (total + Py.len (concat batches)) failure)
    /\ batch_run h namespace w batches w' tr failure.
Proof.
  revert total w. induction starts as [| i starts IH]; intros total w; simpl.
  - exists w, [], None. simpl. split; [|constructor].
    unfold Py.len. simpl. rewrite Z.add_0_r. reflexivity.
  - destruct (h (IndexUpsert (Py.slice vectors i (i + bs)) namespace) w)
      as [w1 [[] | msg]] eqn:Hh; simpl.
    + destruct (IH (total + Py.len (Py.slice vectors i (i + bs))) w1)
        as (w' & tr & failure & Hrun & Hbatch).
      simpl in Hrun. rewrite Hrun.
      exists w', (Exchange (IndexUpsert (Py.slice vectors i (i + bs)) namespace) (Ok tt) :: tr),
        failure.
      split.
      * unfold Py.len. rewrite length_app.
        replace (total + Z.of_nat (length (Py.slice vectors i (i + bs))
                                   + length (concat (map (fun i0 => Py.slice vectors i0 (i0 + bs)) starts))))
          with (total + Z.of_nat (length (Py.slice vectors i (i + bs)))
                + Z.of_nat (length (concat (map (fun i0 => Py.slice vectors i0 (i0 + bs)) starts))))
          by lia.
        reflexivity.
      * econstructor; eassumption.
    + exists w1, [Exchange (IndexUpsert (Py.slice vectors i (i + bs)) namespace) (Raised msg)],
        (Some msg).
      split; [reflexivity|]. constructor. exact Hh.
Qed.

Definition upsert_outcome (vectors : list PineconeVector) (namespace : string)
    (failure : option string) : outcome UpsertResult :=
  match failure with
  | None => Returns {| upserted_count := Py.len vectors;
                       upsert_namespace := or_default namespace |}
  | Some msg => Raises (Exception msg)
  end.

Lemma run_upsert_vectors {W : Type} (h : handler W) (vectors : list PineconeVector)
    (namespace : string) (bs : Z) (w : W) :
  0 < bs ->
  exists w' tr failure,
    run h (upsert_vectors vectors namespace bs) w
    = (w', tr, upsert_outcome vectors namespace failure)
    /\ batch_run h namespace w (batches_of vectors bs) w' tr failure.
Proof.
  intros Hbs. unfold upsert_vectors.
  destruct (bs =? 0) eqn:E; [apply Z.eqb_eq in E; lia|].
  destruct (run_upsert_loop h vectors namespace bs
              (Py.range 0 (Py.len vectors) bs) 0 w)
    as (w' & tr & failure & Hrun & Hbatch).
  exists w', tr, failure. split; [|exact Hbatch].
  rewrite run_bind. simpl in Hrun. rewrite Hrun.
  fold (batches_of vectors bs). rewrite concat_batches_of by exact Hbs.
  destruct failure; simpl; [reflexivity|].
  rewrite app_nil_r. reflexivity.
Qed.

(** C8. [upsert_vectors] with the batch size 100 that [store_documents]
    passes cuts the records into consecutive batches of at most 100, in
    order, and hands them to the index one at a time.  When the index refuses
    a batch the later batches are never sent and the refusal is raised to the
    caller; the world is the one left by the batches already accepted and by
    the refused call, nothing is sent to undo them. *)
Theorem upsert_vectors_batched {W : Type} (h : handler W)
    (vectors : list PineconeVector) (namespace : string) (w : W) :
  let batches := batches_of vectors 100 in
  concat batches = vectors
  /\ Forall (fun batch => 0 < Py.len batch <= 100) batches
  /\ exists w' tr failure,
       run h (upsert_vectors vectors namespace 100) w
       = (w', tr, upsert_outcome vectors namespace failure)
       /\ batch_run h namespace w batches w' tr failure.
Proof.
  simpl. split; [apply concat_batches_of; lia|].
  split; [apply batches_of_sizes; lia|].
  apply run_upsert_vectors. lia.
Qed.

(** ** What a program sends *)

Definition request_of (e : Entry) : Request :=
  match e with Exchange r _ => r end.

(** The records handed to the index, each with the namespace it was sent to. *)
Definition upserted_of (e : Entry) : list (string * PineconeVector) :=
  match request_of e with
  | IndexUpsert vectors namespace => map (pair namespace) vectors
  | _ => []
  end.

Definition upserts (tr : list Entry) : list (string * PineconeVector) :=
  flat_map upserted_of tr.

(** The matches the index returned. *)
Definition matches_of (e : Entry) : list ScoredVector :=
  match e with
  | Exchange r rp =>
      match r return reply (Response r) -> list ScoredVector with
      | IndexQuery _ _ _ _ _ _ =>
          fun rp => match rp with Ok ms => ms | Raised _ => [] end
      | _ => fun _ => []
      end rp
  end.

Definition matched (tr : list Entry) : list ScoredVector :=
  flat_map matches_of tr.

Section Safety.
(** [P] constrains the requests a program sends; [C] is what is known of
    the replies. *)
Variable P : Request -> Prop.
Variable C : forall r : Request, reply (Response r) -> Prop.

(** Every request [p] sends satisfies [P] and every value it returns
    satisfies [Q], as long as the replies satisfy [C]. *)
Fixpoint safe {A : Type} (p : Prog A) (Q : A -> Prop) : Prop :=
  match p with
  | Ret a => Q a
  | Throw _ => True
  | Call r k => P r /\ forall rp, C r rp -> safe (k rp) Q
  end.

Lemma safe_bind {A B : Type} (p : Prog A) (f : A -> Prog B)
    (Q : A -> Prop) (Q' : B -> Prop) :
  safe p Q -> (forall a, Q a -> safe (f a) Q') -> safe (bind p f) Q'.
Proof.
  intros Hp Hf. induction p as [a | e | r k IH]; simpl in *.
  - auto.
  - exact I.
  - destruct Hp as [Hr Hk]. split; [exact Hr|]. intros rp Hrp. apply IH, Hk, Hrp.
Qed.

Lemma safe_try_except {A : Type} (p : Prog A) (g : exn -> Prog A) (Q : A -> Prop) :
  safe p Q -> (forall e, safe (g e) Q) -> safe (try_except p g) Q.
Proof.
  intros Hp Hg. induction p as [a | e | r k IH]; simpl in *.
  - exact Hp.
  - apply Hg.
  - destruct Hp as [Hr Hk]. split; [exact Hr|]. intros rp Hrp. apply IH, Hk, Hrp.
Qed.

Lemma safe_call (r : Request) : P r -> safe (call r) (fun x => C r (Ok x)).
Proof.
  intros Hr. simpl. split; [exact Hr|]. intros [x | msg] Hrp; simpl; auto.
Qed.

Lemma safe_weaken {A : Type} (p : Prog A) (Q Q' : A -> Prop) :
  safe p Q -> (forall a, Q a -> Q' a) -> safe p Q'.
Proof.
  intros Hp HQ. induction p as [a | e | r k IH]; simpl in *; auto.
  destruct Hp as [Hr Hk]. split; [exact Hr|]. intros rp Hrp. apply IH, Hk, Hrp.
Qed.

Lemma safe_http_guard {A : Type} (prefix : string) (e : exn) (Q : A -> Prop) :
  safe (http_guard prefix e) Q.
Proof. destruct e; exact I. Qed.

Lemma safe_run {W A : Type} (h : handler W) (p : Prog A) (Q : A -> Prop) (w : W) :
  (forall r w, C r (h r w).2) ->
  safe p Q ->
  Forall (fun e => P (request_of e)) (trace_of (run h p w))
  /\ match outcome_of (run h p w) with
     | Returns a => Q a
     | Raises _ => True
     end.
Proof.
  intros Hh. revert w. induction p as [a | e | r k IH]; intros w Hp; simpl in *.
  - split; [constructor|exact Hp].
  - split; [constructor|exact I].
  - destruct Hp as [Hr Hk]. pose proof (Hh r w) as Hrp.
    destruct (h r w) as [w1 rp]. simpl in Hrp.
    specialize (IH rp w1 (Hk rp Hrp)).
    destruct (run h (k rp) w1) as [[w2 tr] res].
    unfold trace_of, outcome_of in *. simpl in *.
    destruct IH as [IH1 IH2]. split; [|exact IH2].
    constructor; [exact Hr|exact IH1].
Qed.
End Safety.

Lemma in_upserts (tr : list Entry) (namespace : string) (v : PineconeVector) :
  In (namespace, v) (upserts tr) ->
  exists e vectors,
    In e tr /\ request_of e = IndexUpsert vectors namespace /\ In v vectors.
Proof.
  unfold upserts. rewrite in_flat_map. intros (e & He & Hv).
  unfold upserted_of in Hv. destruct (request_of e) eqn:Er; try contradiction.
  apply in_map_iff in Hv as (v' & Heq & Hv'). inversion Heq; subst.
  eauto.
Qed.

(** ** The store endpoint *)

(** The part of [store_rag_data] that follows [splitter.split_text]. *)
Definition store_after_split (request : RagStoreRequest) (chunks : list string)
  : Prog RagStoreResponse :=
  timestamp <- call Now;;
  docs <- Ret (chunk_documents request timestamp chunks);;
  nodes <- call (GetNodesFromDocuments 1024 150 docs);;
  embeddings <- call (EmbedTextsWhileStoring (map get_content nodes));;
  _ <- store_documents nodes embeddings
         (s_userId request) (s_email request) (s_title request);;
  Ret {| documentId := s_email request; indexed := true |}.

Arguments store_after_split : simpl never.

Lemma store_rag_data_unfold (request : RagStoreRequest) :
  store_rag_data request =
  try_except
    (if is_blank (s_content request)
     then Throw (HTTPException 400 "Content cannot be empty")
     else chunks <- call (SplitText 1024 150 (s_content request));;
          store_after_split request chunks)
    (http_guard "Failed to store data: ").
Proof. reflexivity. Qed.

(** Nodes carry the metadata of the document they were cut from, as
    llama_index's node parser does with its default [include_metadata]. *)
Definition nodes_inherit (docs : list Document) (nodes : list Node) : Prop :=
  Forall (fun n => exists d, In d docs /\ node_metadata n = extra_info d) nodes.

Definition node_parser_contract (r : Request) : reply (Response r) -> Prop :=
  match r return reply (Response r) -> Prop with
  | GetNodesFromDocuments _ _ docs =>
      fun rp => match rp with
                | Ok nodes => nodes_inherit docs nodes
                | Raised _ => True
                end
  | _ => fun _ => True
  end.

Definition no_contract (r : Request) : reply (Response r) -> Prop := fun _ => True.

Lemma enumerate_from_bounds {A : Type} (xs : list A) (k i : Z) (x : A) :
  In (i, x) (Py.enumerate_from k xs) -> k <= i < k + Py.len xs.
Proof.
  revert k. induction xs as [| y xs IH]; intros k; simpl; [contradiction|].
  unfold Py.len in *. simpl length. intros [H | H].
  - inversion H; subst. lia.
  - apply IH in H. lia.
Qed.

Lemma zip_in_l {A B : Type} (xs : list A) (ys : list B) (x : A) (y : B) :
  In (x, y) (Py.zip xs ys) -> In x xs.
Proof.
  revert ys. induction xs as [| x' xs IH]; intros [| y' ys]; simpl; try contradiction.
  intros [H | H]; [inversion H; auto | right; eapply IH; eauto].
Qed.

Lemma safe_upsert_loop (P : Request -> Prop)
    (C : forall r : Request, reply (Response r) -> Prop)
    (vectors : list PineconeVector) (namespace : string) (bs : Z)
    (starts : list Z) (total : Z) :
  (forall batch, (forall v, In v batch -> In v vectors) ->
                 P (IndexUpsert batch namespace)) ->
  safe P C (upsert_loop vectors namespace bs starts total) (fun _ => True).
Proof.
  intros HP. revert total. induction starts as [| i starts IH]; intros total; simpl.
  - exact I.
  - split.
    + apply HP. intros v. apply slice_incl.
    + intros [[] | msg] _; simpl; [apply IH | exact I].
Qed.

Lemma safe_upsert_vectors (P : Request -> Prop)
    (C : forall r : Request, reply (Response r) -> Prop)
    (vectors : list PineconeVector) (namespace : string) (bs : Z) :
  (forall batch, (forall v, In v batch -> In v vectors) ->
                 P (IndexUpsert batch namespace)) ->
  safe P C (upsert_vectors vectors namespace bs) (fun _ => True).
Proof.
  intros HP. unfold upsert_vectors. destruct (bs =? 0); [exact I|].
  eapply safe_bind; [apply safe_upsert_loop, HP|]. intros total _. exact I.
Qed.

(** Every record [store_documents] sends carries the caller's [user_id] and
    goes to the namespace derived from that same [user_id]. *)
Definition owner_tagged (user_id email_id : string) (r : Request) : Prop :=
  match r with
  | IndexUpsert vectors namespace =>
      namespace = namespace_of user_id email_id
      /\ forall v, In v vectors -> pv_metadata v !! "user_id" = Some (VStr user_id)
  | _ => True
  end.

Lemma pinecone_vector_of_user_id (user_id email_id title : string) (ne : Node * vector) :
  pv_metadata (pinecone_vector_of user_id email_id title ne) !! "user_id"
  = Some (VStr user_id).
Proof. unfold pinecone_vector_of. simpl. by simplify_map_eq. Qed.

Lemma pinecone_vector_of_other (user_id email_id title key : string)
    (ne : Node * vector) :
  key <> "text" -> key <> "user_id" -> key <> "email_id" -> key <> "title" ->
  pv_metadata (pinecone_vector_of user_id email_id title ne) !! key
  = node_metadata ne.1 !! key.
Proof. intros. unfold pinecone_vector_of. simpl. by simplify_map_eq. Qed.

Lemma safe_store_documents_owner
    (C : forall r : Request, reply (Response r) -> Prop)
    (nodes : list Node) (embeddings : list vector) (user_id email_id title : string) :
  safe (owner_tagged user_id email_id) C
       (store_documents nodes embeddings user_id email_id title) (fun _ => True).
Proof.
  unfold store_documents. eapply safe_bind; [|intros; exact I].
  apply safe_upsert_vectors. intros batch Hsub. simpl. split; [reflexivity|].
  intros v Hv. apply Hsub, in_map_iff in Hv as (ne & <- & _).
  apply pinecone_vector_of_user_id.
Qed.

Lemma safe_store_rag_data_owner
    (C : forall r : Request, reply (Response r) -> Prop) (request : RagStoreRequest) :
  safe (owner_tagged (s_userId request) (s_email request)) C
       (store_rag_data request) (fun _ => True).
Proof.
  rewrite store_rag_data_unfold.
  apply safe_try_except; [|intros; apply safe_http_guard].
  destruct (is_blank (s_content request)); [exact I|].
  eapply safe_bind; [apply safe_call; exact I|]. intros chunks _.
  unfold store_after_split.
  eapply safe_bind; [apply safe_call; exact I|]. intros timestamp _. cbn [bind].
  eapply safe_bind; [apply safe_call; exact I|]. intros nodes _.
  eapply safe_bind; [apply safe_call; exact I|]. intros embeddings _.
  eapply safe_bind; [apply safe_store_documents_owner|]. intros; exact I.
Qed.

(** What one stored record says about its chunk and its owner. *)
Definition record_tagged (request : RagStoreRequest) (total : Z)
    (v : PineconeVector) : Prop :=
  pv_metadata v !! "user_id" = Some (VStr (s_userId request))
  /\ pv_metadata v !! "total_chunks" = Some (VInt total)
  /\ exists i, pv_metadata v !! "chunk_index" = Some (VInt i) /\ 0 <= i < total.

Definition chunk_tagged (request : RagStoreRequest) (total : Z) (r : Request) : Prop :=
  match r with
  | IndexUpsert vectors namespace =>
      namespace = namespace_of (s_userId request) (s_email request)
      /\ forall v, In v vectors -> record_tagged request total v
  | _ => True
  end.

Lemma chunk_documents_tagged (request : RagStoreRequest) (timestamp : string)
    (chunks : list string) (d : Document) :
  In d (chunk_documents request timestamp chunks) ->
  extra_info d !! "total_chunks" = Some (VInt (Py.len chunks))
  /\ exists i, extra_info d !! "chunk_index" = Some (VInt i) /\ 0 <= i < Py.len chunks.
Proof.
  unfold chunk_documents. intros H. apply in_map_iff in H as ([i c] & <- & Hic).
  apply enumerate_from_bounds in Hic. simpl. unfold chunk_extra_info.
  split; [by simplify_map_eq|]. exists i. split; [by simplify_map_eq | lia].
Qed.

Lemma safe_store_after_split (request : RagStoreRequest) (chunks : list string) :
  safe (chunk_tagged request (Py.len chunks)) node_parser_contract
       (store_after_split request chunks) (fun _ => True).
Proof.
  unfold store_after_split.
  eapply safe_bind; [apply safe_call; exact I|]. intros timestamp _. cbn [bind].
  eapply safe_bind; [apply safe_call; exact I|]. intros nodes Hnodes.
  eapply safe_bind; [apply safe_call; exact I|]. intros embeddings _.
  eapply safe_bind with (Q := fun _ => True); [|intros; exact I].
  unfold store_documents.
  eapply safe_bind with (Q := fun _ => True); [|intros; exact I].
  apply safe_upsert_vectors. intros batch Hsub. simpl. split; [reflexivity|].
  intros v Hv. apply Hsub, in_map_iff in Hv as ([n emb] & <- & Hin).
  apply zip_in_l in Hin. simpl in Hnodes. unfold nodes_inherit in Hnodes.
  rewrite List.Forall_forall in Hnodes. destruct (Hnodes n Hin) as (d & Hd & Hmeta).
  apply chunk_documents_tagged in Hd as (Htotal & i & Hi & Hbound).
  unfold record_tagged. split; [apply pinecone_vector_of_user_id|].
  rewrite !pinecone_vector_of_other by discriminate. simpl. rewrite Hmeta.
  split; [exact Htotal|]. exists i. split; [exact Hi|exact Hbound].
Qed.

Lemma trace_store_rag_data {W : Type} (h : handler W) (w : W)
    (request : RagStoreRequest) :
  trace_of (run h (store_rag_data request) w) =
  if is_blank (s_content request) then []
  else
    let split := SplitText 1024 150 (s_content request) in
    match (h split w).2 with
    | Ok chunks =>
        Exchange split (Ok chunks)
          :: trace_of (run h (store_after_split request chunks) (h split w).1)
    | Raised msg => [Exchange split (Raised msg)]
    end.
Proof.
  rewrite store_rag_data_unfold, run_try_except. cbv zeta.
  destruct (is_blank (s_content request)); [reflexivity|].
  rewrite run_bind, run_call.
  destruct (h (SplitText 1024 150 (s_content request)) w) as [w1 [chunks | msg]];
    cbn [fst snd]; [|reflexivity].
  destruct (run h (store_after_split request chunks) w1) as [[w2 tr] [a | e]];
    cbn [fst snd trace_of app]; [reflexivity|].
  rewrite run_http_guard. cbn [fst snd]. rewrite app_nil_r. reflexivity.
Qed.

(** C9. Every record one call of [store_rag_data] hands to the index has a
    [chunk_index] between 0 and [total_chunks], the same [total_chunks] as
    every other record of the call, and a [user_id] equal to the tenant id
    from which the namespace it is sent to was derived; the node parser is
    assumed to give each node the metadata of its document. *)
Theorem chunk_metadata_invariant {W : Type} (h : handler W) (w : W)
    (request : RagStoreRequest) :
  (forall r w, node_parser_contract r (h r w).2) ->
  exists total,
    forall namespace v,
      In (namespace, v) (upserts (trace_of (run h (store_rag_data request) w))) ->
      namespace = namespace_of (s_userId request) (s_email request)
      /\ pv_metadata v !! "user_id" = Some (VStr (s_userId request))
      /\ pv_metadata v !! "total_chunks" = Some (VInt total)
      /\ exists i, pv_metadata v !! "chunk_index" = Some (VInt i) /\ 0 <= i < total.
Proof.
  intros Hh. rewrite trace_store_rag_data.
  destruct (is_blank (s_content request)); [exists 0; intros ? ? []|].
  simpl. destruct (h (SplitText 1024 150 (s_content request)) w) as [w1 [chunks | msg]];
    simpl; [|exists 0; intros ? ? []].
  exists (Py.len chunks). intros namespace v Hin.
  change (upserts (?e :: ?tr)) with (upserted_of e ++ upserts tr)%list in Hin.
  simpl in Hin.
  apply in_upserts in Hin as (e & vectors & He & Hreq & Hv).
  destruct (safe_run _ _ h _ _ w1 Hh (safe_store_after_split request chunks))
    as [Htrace _].
  rewrite List.Forall_forall in Htrace. specialize (Htrace e He).
  rewrite Hreq in Htrace. destruct Htrace as [Hns Htag].
  split; [exact Hns|]. exact (Htag v Hv).
Qed.

(** ** The reference index *)

Lemma in_insert_ranked (m x : ScoredVector) (ms : list ScoredVector) :
  In x (Pinecone.insert_ranked m ms) <-> x = m \/ In x ms.
Proof.
  induction ms as [| m' ms IH]; simpl.
  - intuition congruence.
  - destruct (Qle_bool (sv_score m) (sv_score m')); simpl; rewrite ?IH;
      intuition congruence.
Qed.

Lemma in_rank (x : ScoredVector) (ms : list ScoredVector) :
  In x (Pinecone.rank ms) <-> In x ms.
Proof.
  unfold Pinecone.rank. induction ms as [| m ms IH]; simpl.
  - tauto.
  - rewrite in_insert_ranked, IH. intuition congruence.
Qed.

(** A match comes from a record of the queried namespace that passes the
    filter. *)
Lemma in_query (sim : vector -> vector -> Q) (idx : Pinecone.Index)
    (qv : vector) (top_k : Z) (filter : option (gmap string MVal))
    (namespace : string) (incl_md incl_vals : bool) (m : ScoredVector) :
  In m (Pinecone.query sim idx qv top_k filter namespace incl_md incl_vals) ->
  exists r,
    In r (Pinecone.records idx namespace)
    /\ Pinecone.matches_filter filter (pv_metadata r) = true
    /\ m = Pinecone.scored sim qv incl_md incl_vals r.
Proof.
  unfold Pinecone.query. intros H.
  apply list_elem_of_In, elem_of_take in H as (i & H & _).
  assert (Hin : In m (Pinecone.rank
                        (map (Pinecone.scored sim qv incl_md incl_vals)
                           (List.filter
                              (fun r => Pinecone.matches_filter filter (pv_metadata r))
                              (Pinecone.records idx namespace))))).
  { apply list_elem_of_In, list_elem_of_lookup. eauto. }
  apply in_rank, in_map_iff in Hin as (r & <- & Hr).
  apply filter_In in Hr as [Hr Hf]. eauto.
Qed.

Lemma matches_filter_singleton (key : string) (value : MVal)
    (metadata : gmap string MVal) :
  Pinecone.matches_filter (Some {[ key := value ]}) metadata = true
  <-> metadata !! key = Some value.
Proof.
  unfold Pinecone.matches_filter. rewrite map_to_list_singleton. simpl.
  rewrite andb_true_r. apply bool_decide_eq_true.
Qed.

(** Requests other than an upsert leave the index alone, and an upsert
    changes no namespace but its own. *)
Lemma handle_other_namespace (env : Env) (r : Request) (idx : Pinecone.Index)
    (namespace : string) :
  match r with
  | IndexUpsert _ target => target <> namespace
  | _ => True
  end ->
  Pinecone.records (handle env r idx).1 namespace = Pinecone.records idx namespace.
Proof.
  destruct r; simpl; try reflexivity. intros Hne.
  unfold Pinecone.upsert. destruct (forallb _ _); simpl; [|reflexivity].
  unfold Pinecone.records. simpl. rewrite lookup_insert_ne by exact Hne. reflexivity.
Qed.

Lemma handle_dimension (env : Env) (r : Request) (idx : Pinecone.Index) :
  Pinecone.dimension (handle env r idx).1 = Pinecone.dimension idx.
Proof.
  destruct r; simpl; try reflexivity.
  unfold Pinecone.upsert. destruct (forallb _ _); reflexivity.
Qed.

Section Invariant.
Context {W : Type} (h : handler W).
Variable P : Request -> Prop.
Variable Inv : W -> Prop.
Hypothesis preserved : forall r w, P r -> Inv w -> Inv (h r w).1.

(** A property of the world kept by every request that satisfies [P]
    survives the run of a program that sends only such requests. *)
Lemma run_invariant {A : Type} (p : Prog A) (Q : A -> Prop) (w : W) :
  safe P no_contract p Q -> Inv w -> Inv (world_of (run h p w)).
Proof.
  revert w. induction p as [a | e | r k IH]; intros w Hp Hw; simpl in *.
  - exact Hw.
  - exact Hw.
  - destruct Hp as [Hr Hk]. pose proof (preserved r w Hr Hw) as Hw1.
    destruct (h r w) as [w1 rp]. simpl in Hw1.
    specialize (IH rp w1 (Hk rp I) Hw1).
    destruct (run h (k rp) w1) as [[w2 tr] res]. exact IH.
Qed.
End Invariant.

(** ** Isolation *)

(** Whatever [retrieve_rag_data] gets back from the reference index was
    selected inside the caller's namespace under the caller's filter. *)
Lemma matched_retrieve (env : Env) (idx : Pinecone.Index)
    (request : RagRetrieveRequest) (m : ScoredVector) :
  In m (matched (trace_of (run (handle env) (retrieve_rag_data request) idx))) ->
  exists qv,
    In m (Pinecone.query (similarity env) idx qv (r_topK request)
            (owner_filter (r_userId request))
            (namespace_of (r_userId request) (r_email request)) true false).
Proof.
  destruct (is_blank (r_query request)) eqn:Hq.
  - unfold retrieve_rag_data. rewrite Hq. simpl. contradiction.
  - rewrite run_retrieve_rag_data by exact Hq. cbv zeta.
    unfold query_request, generate_request. simpl.
    destruct (embed_text_while_searching env (r_query request)) as [v | msg];
      [|simpl; contradiction].
    destruct (Pinecone.query _ _ _ _ _ _ _ _) as [| m0 ms] eqn:Hquery.
    + simpl. contradiction.
    + simpl. rewrite app_nil_r. intros Hin. exists v.
      unfold owner_filter. rewrite Hquery. exact Hin.
Qed.

Lemma upserts_owner {W : Type} (h : handler W) (w : W) (request : RagStoreRequest)
    (namespace : string) (v : PineconeVector) :
  In (namespace, v) (upserts (trace_of (run h (store_rag_data request) w))) ->
  namespace = namespace_of (s_userId request) (s_email request)
  /\ pv_metadata v !! "user_id" = Some (VStr (s_userId request)).
Proof.
  intros Hin. apply in_upserts in Hin as (e & vectors & He & Hreq & Hv).
  destruct (safe_run _ no_contract h _ _ w (fun _ _ => I)
              (safe_store_rag_data_owner no_contract request)) as [Htrace _].
  rewrite List.Forall_forall in Htrace. specialize (Htrace e He).
  rewrite Hreq in Htrace. destruct Htrace as [Hns Htag]. auto.
Qed.

(** The metadata filter keeps out every record tagged with another owner. *)
Lemma filter_excludes (sim : vector -> vector -> Q) (idx : Pinecone.Index)
    (qv : vector) (top_k : Z) (namespace owner other : string)
    (m : ScoredVector) (v : PineconeVector) :
  other <> owner ->
  pv_metadata v !! "user_id" = Some (VStr other) ->
  In m (Pinecone.query sim idx qv top_k (owner_filter owner) namespace true false) ->
  sv_metadata m <> Some (pv_metadata v).
Proof.
  intros Hne Hv Hm Heq. apply in_query in Hm as (r & _ & Hf & ->).
  apply matches_filter_singleton in Hf. simpl in Heq.
  inversion Heq as [Hmeta]. rewrite Hmeta, Hv in Hf. congruence.
Qed.

(** Ingestion leaves every other namespace as it was. *)
Lemma store_keeps_other_namespaces (env : Env) (idx : Pinecone.Index)
    (request : RagStoreRequest) (namespace : string) :
  namespace_of (s_userId request) (s_email request) <> namespace ->
  Pinecone.records (world_of (run (handle env) (store_rag_data request) idx)) namespace
  = Pinecone.records idx namespace.
Proof.
  intros Hne.
  apply (run_invariant (handle env)
           (owner_tagged (s_userId request) (s_email request))
           (fun w => Pinecone.records w namespace = Pinecone.records idx namespace))
    with (Q := fun _ => True).
  - intros r w Hr Hw. rewrite handle_other_namespace; [exact Hw|].
    destruct r; try exact I. destruct Hr as [-> _]. exact Hne.
  - apply safe_store_rag_data_owner.
  - reflexivity.
Qed.

(** After tenant A stores content, nothing the query of a different tenant B
    gets back from the reference index is one of A's records.  This rests on
    the [user_id] tag and the metadata filter alone, in whatever namespace
    the query runs.  When the two derived namespaces differ, A's ingestion
    moreover changes nothing a query in B's namespace can see. *)
Theorem tenant_isolation (env : Env) (idx : Pinecone.Index)
    (stored_by : RagStoreRequest) (asked_by : RagRetrieveRequest) :
  s_userId stored_by <> r_userId asked_by ->
  let ingest := run (handle env) (store_rag_data stored_by) idx in
  let reply := run (handle env) (retrieve_rag_data asked_by) (world_of ingest) in
  let theirs := namespace_of (s_userId stored_by) (s_email stored_by) in
  let mine := namespace_of (r_userId asked_by) (r_email asked_by) in
  (forall namespace v m,
      In (namespace, v) (upserts (trace_of ingest)) ->
      In m (matched (trace_of reply)) ->
      sv_metadata m <> Some (pv_metadata v))
  /\ (forall namespace v qv top_k anywhere m,
         In (namespace, v) (upserts (trace_of ingest)) ->
         In m (Pinecone.query (similarity env) (world_of ingest) qv top_k
                 (owner_filter (r_userId asked_by)) anywhere true false) ->
         sv_metadata m <> Some (pv_metadata v))
  /\ (theirs <> mine ->
      forall qv top_k filter incl_md incl_vals,
        Pinecone.query (similarity env) (world_of ingest) qv top_k filter mine
          incl_md incl_vals
        = Pinecone.query (similarity env) idx qv top_k filter mine
            incl_md incl_vals).
Proof.
  intros Hne ingest reply theirs mine.
  assert (Hfilter : forall namespace v qv top_k anywhere m,
             In (namespace, v) (upserts (trace_of ingest)) ->
             In m (Pinecone.query (similarity env) (world_of ingest) qv top_k
                     (owner_filter (r_userId asked_by)) anywhere true false) ->
             sv_metadata m <> Some (pv_metadata v)).
  { intros namespace v qv top_k anywhere m Hv Hm.
    apply upserts_owner in Hv as [_ Hv].
    eapply filter_excludes; eauto. }
  split; [|split].
  - intros namespace v m Hv Hm. apply matched_retrieve in Hm as (qv & Hm).
    eapply Hfilter; eauto.
  - exact Hfilter.
  - intros Hns qv top_k filter incl_md incl_vals. unfold Pinecone.query.
    unfold ingest. rewrite store_keeps_other_namespaces by exact Hns. reflexivity.
Qed.

Example store_then_query_same_tenant :
  outcome_of Scenario.after_u1 = Returns {| documentId := "d1"; indexed := true |}
  /\ length (upserts (trace_of Scenario.after_u1)) = 1%nat
  /\ outcome_of (run Scenario.h (retrieve_rag_data Scenario.ask_u1)
                   (world_of Scenario.after_u1))
     = Returns {| answer := "T"; score := 56 # 1 |}.
Proof. vm_compute. repeat split. Qed.

Example store_then_query_other_tenant :
  outcome_of (run Scenario.h (retrieve_rag_data Scenario.ask_u2)
                (world_of Scenario.after_u1))
  = Returns {| answer := no_information; score := 0 # 1 |}.
Proof. vm_compute. reflexivity. Qed.

(** C1, where the code departs from it.  Tenant ["a_b"] stores the document
    ["c"], tenant ["a"] asks about the document ["b_c"].  The record goes to
    the namespace ["user_a_b_c"] tagged with [user_id = "a_b"], and the one
    query the endpoint sends for tenant ["a"] is scoped to that same
    namespace, with the filter [user_id = "a"].  The namespace restriction
    of that query, taken on its own, returns the record of ["a_b"]: the
    namespace is not private to one tenant, and only the filter keeps the
    record out of the reply. *)
Theorem namespace_layer_alone_leaks :
  s_userId Scenario.store_a_b <> r_userId Scenario.ask_a
  /\ exists v,
       upserts (trace_of Scenario.after_a_b) = [("user_a_b_c", v)]
       /\ pv_metadata v !! "user_id" = Some (VStr "a_b")
       /\ map request_of
            (trace_of (run Scenario.h (retrieve_rag_data Scenario.ask_a)
                         (world_of Scenario.after_a_b)))
          = [EmbedTextWhileSearching "secret";
             IndexQuery (Demo.embed "secret") 10 (owner_filter "a") "user_a_b_c"
               true false]
       /\ map sv_metadata
            (Pinecone.query Demo.dot (world_of Scenario.after_a_b)
               (Demo.embed "secret") 10 None "user_a_b_c" true false)
          = [Some (pv_metadata v)]
       /\ Pinecone.query Demo.dot (world_of Scenario.after_a_b)
            (Demo.embed "secret") 10 (owner_filter "a") "user_a_b_c" true false
          = [].
Proof.
  split; [discriminate|].
  eexists. split; [vm_compute; reflexivity|].
  repeat split; vm_compute; reflexivity.
Qed.

Lemma tenant_isolation_witness :
  s_userId Scenario.store_a_b <> r_userId Scenario.ask_a
  /\ forall namespace v m,
       In (namespace, v) (upserts (trace_of Scenario.after_a_b)) ->
       In m (matched (trace_of (run Scenario.h (retrieve_rag_data Scenario.ask_a)
                                  (world_of Scenario.after_a_b)))) ->
       sv_metadata m <> Some (pv_metadata v).
Proof.
  assert (Hne : s_userId Scenario.store_a_b <> r_userId Scenario.ask_a)
    by discriminate.
  split; [exact Hne|].
  exact (proj1 (tenant_isolation Demo.env Demo.empty_index
                  Scenario.store_a_b Scenario.ask_a Hne)).
Defined.

(** ** Namespace derivation *)

Lemma append_cons (x : ascii) (a b : string) :
  String x a +:+ b = String x (a +:+ b).
Proof. reflexivity. Qed.

Lemma append_assoc (a b c : string) : (a +:+ b) +:+ c = a +:+ (b +:+ c).
Proof.
  induction a as [| x a IH]; [reflexivity|].
  rewrite !append_cons. f_equal. exact IH.
Qed.

Lemma length_append (a b : string) :
  String.length (a +:+ b) = (String.length a + String.length b)%nat.
Proof.
  induction a as [| x a IH]; [reflexivity|].
  rewrite append_cons. simpl. f_equal. exact IH.
Qed.

(** Moving the separator between the two ids does not change the namespace. *)
Lemma namespace_of_shift (user_id middle email_id : string) :
  namespace_of (user_id +:+ "_" +:+ middle) email_id
  = namespace_of user_id (middle +:+ "_" +:+ email_id).
Proof.
  unfold namespace_of. rewrite !append_assoc. reflexivity.
Qed.

(** The namespace of [search_documents] is never the one [store_documents]
    writes to. *)
Lemma search_namespace_differs (user_id email_id : string) :
  search_namespace_of user_id <> namespace_of user_id email_id.
Proof.
  unfold search_namespace_of, namespace_of. intros H.
  apply (f_equal String.length) in H. rewrite !length_append in H.
  cbn [String.length] in H. lia.
Qed.

(** C3. The namespace derivation is not injective: the distinct pairs
    (["a_b"], ["c"]) and (["a"], ["b_c"]) both give ["user_a_b_c"], and so do
    all pairs that differ by where the separator falls.  After the first pair
    has stored a record, a query scoped to the second pair's namespace alone
    finds it, and the query [retrieve_rag_data] issues for the second pair,
    with the metadata filter, finds nothing. *)
Theorem namespace_not_injective :
  (forall user_id middle email_id,
      namespace_of (user_id +:+ "_" +:+ middle) email_id
      = namespace_of user_id (middle +:+ "_" +:+ email_id))
  /\ ("a_b", "c") <> ("a", "b_c")
  /\ namespace_of "a_b" "c" = "user_a_b_c"
  /\ namespace_of "a" "b_c" = "user_a_b_c"
  /\ length (Pinecone.query Demo.dot (world_of Scenario.after_a_b)
               (Demo.embed "secret") 10 None (namespace_of "a" "b_c") true false)
     = 1%nat
  /\ matched (trace_of (run Scenario.h (retrieve_rag_data Scenario.ask_a)
                          (world_of Scenario.after_a_b)))
     = [].
Proof.
  split; [exact namespace_of_shift|].
  split; [discriminate|].
  repeat split; vm_compute; reflexivity.
Qed.

(** C2, where the code departs from it.  For the pair (["u1"], ["d1"])
    [store_documents] writes to ["user_u1_d1"], the namespace
    [retrieve_rag_data] also queries, but [search_documents] looks in
    ["user_u1"]: it finds nothing of what was stored, although the same
    filter applied in the namespace written to finds the record.  The two
    derivations differ for every pair. *)
Theorem search_documents_other_namespace :
  (forall user_id email_id,
      search_namespace_of user_id <> namespace_of user_id email_id)
  /\ map fst (upserts (trace_of Scenario.after_u1)) = ["user_u1_d1"]
  /\ outcome_of (run Scenario.h
                   (search_documents (Demo.embed "hello") "u1" 5 (Some "d1"))
                   (world_of Scenario.after_u1))
     = Returns []
  /\ (exists found,
         outcome_of (run Scenario.h
                       (query_vectors (Demo.embed "hello") 5
                          (Some (<["email_id" := VStr "d1"]>
                                   {[ "user_id" := VStr "u1" ]}))
                          (namespace_of "u1" "d1") true false)
                       (world_of Scenario.after_u1))
         = Returns [found]).
Proof.
  split; [exact search_namespace_differs|].
  split; [vm_compute; reflexivity|].
  split; [vm_compute; reflexivity|].
  eexists. vm_compute. reflexivity.
Qed.

(** ** Validation *)

(** A program that raises nothing but plain exceptions. *)
Fixpoint plain {A : Type} (p : Prog A) : Prop :=
  match p with
  | Ret _ => True
  | Throw (Exception _) => True
  | Throw (HTTPException _ _) => False
  | Call r k => forall rp, plain (k rp)
  end.

Lemma plain_call (r : Request) : plain (call r).
Proof. intros [x | msg]; exact I. Qed.

Lemma plain_bind {A B : Type} (p : Prog A) (f : A -> Prog B) :
  plain p -> (forall a, plain (f a)) -> plain (bind p f).
Proof.
  intros Hp Hf. induction p as [a | e | r k IH]; simpl in *.
  - apply Hf.
  - exact Hp.
  - intros rp. apply IH, Hp.
Qed.

Lemma plain_upsert_loop (vectors : list PineconeVector) (namespace : string)
    (bs : Z) (starts : list Z) (total : Z) :
  plain (upsert_loop vectors namespace bs starts total).
Proof.
  revert total. induction starts as [| i starts IH]; intros total; simpl; [exact I|].
  intros [[] | msg]; simpl; [apply IH | exact I].
Qed.

Lemma plain_store_documents (nodes : list Node) (embeddings : list vector)
    (user_id email_id title : string) :
  plain (store_documents nodes embeddings user_id email_id title).
Proof.
  unfold store_documents, upsert_vectors. apply plain_bind; [|intros; exact I].
  destruct (100 =? 0); [exact I|].
  apply plain_bind; [apply plain_upsert_loop|intros; exact I].
Qed.

Lemma plain_store_after_split (request : RagStoreRequest) (chunks : list string) :
  plain (store_after_split request chunks).
Proof.
  unfold store_after_split.
  apply plain_bind; [apply plain_call|]. intros timestamp. cbn [bind].
  apply plain_bind; [apply plain_call|]. intros nodes.
  apply plain_bind; [apply plain_call|]. intros embeddings.
  apply plain_bind; [apply plain_store_documents|]. intros; exact I.
Qed.

(** Behind the two [except] clauses a plain exception becomes a 500. *)
Lemma guarded_plain {W A : Type} (h : handler W) (p : Prog A) (prefix : string) (w : W) :
  plain p ->
  match outcome_of (run h (try_except p (http_guard prefix)) w) with
  | Returns _ => True
  | Raises (HTTPException status _) => status = 500
  | Raises (Exception _) => False
  end.
Proof.
  revert w. induction p as [a | e | r k IH]; intros w Hp; simpl in *.
  - exact I.
  - destruct e; [reflexivity | contradiction].
  - destruct (h r w) as [w1 rp]. specialize (IH rp w1 (Hp rp)).
    destruct (run h (try_except (k rp) (http_guard prefix)) w1) as [[w2 tr] res].
    exact IH.
Qed.

Definition client_error {A : Type} (res : outcome A) : Prop :=
  exists detail, res = Raises (HTTPException 400 detail).

Lemma store_client_error_iff {W : Type} (h : handler W) (w : W)
    (request : RagStoreRequest) :
  client_error (outcome_of (run h (store_rag_data request) w))
  <-> PyStr.all_space (s_content request) = true.
Proof.
  rewrite <- is_blank_iff, store_rag_data_unfold.
  destruct (is_blank (s_content request)) eqn:Hb.
  - split; [reflexivity|]. intros _. eexists. reflexivity.
  - split; [|discriminate]. intros [detail Hd].
    pose proof (guarded_plain h
                  (chunks <- call (SplitText 1024 150 (s_content request));;
                   store_after_split request chunks)
                  "Failed to store data: " w) as Hg.
    rewrite Hd in Hg. discriminate Hg.
    apply plain_bind; [apply plain_call|]. intros chunks.
    apply plain_store_after_split.
Qed.

Lemma retrieve_client_error_iff {W : Type} (h : handler W) (w : W)
    (request : RagRetrieveRequest) :
  client_error (outcome_of (run h (retrieve_rag_data request) w))
  <-> PyStr.all_space (r_query request) = true.
Proof.
  rewrite <- is_blank_iff.
  destruct (is_blank (r_query request)) eqn:Hb.
  - split; [reflexivity|]. intros _. unfold retrieve_rag_data. rewrite Hb.
    eexists. reflexivity.
  - split; [|discriminate]. intros [detail Hd].
    rewrite run_retrieve_rag_data in Hd by exact Hb. cbv zeta in Hd.
    destruct (h (EmbedTextWhileSearching (r_query request)) w) as [w1 [v | msg]];
      [|discriminate Hd].
    destruct (h (query_request request v) w1) as [w2 [[| m ms] | msg]];
      try discriminate Hd.
    destruct (h (generate_request request (m :: ms)) w2) as [w3 [resp | msg]];
      discriminate Hd.
Qed.

(** C5. When the content of a store request, or the query text of a query
    request, is empty or consists of white space only, the endpoint raises
    its 400 error at once: running it against any collaborators exchanges
    nothing with them and leaves the world as it was. *)
Theorem fail_fast_validation {W : Type} (h : handler W) (w : W) :
  (forall request,
      PyStr.all_space (s_content request) = true ->
      run h (store_rag_data request) w
      = (w, [], Raises (HTTPException 400 "Content cannot be empty")))
  /\ (forall request,
         PyStr.all_space (r_query request) = true ->
         run h (retrieve_rag_data request) w
         = (w, [], Raises (HTTPException 400 "Query cannot be empty"))).
Proof.
  split; intros request Hblank; apply is_blank_iff in Hblank.
  - unfold store_rag_data. rewrite Hblank. reflexivity.
  - unfold retrieve_rag_data. rewrite Hblank. reflexivity.
Qed.

Lemma fail_fast_validation_witness :
  run Scenario.h
    (store_rag_data {| s_userId := "u1"; s_email := "d1"; s_title := "T";
                       s_content := "    " |})
    Demo.empty_index
  = (Demo.empty_index, [], Raises (HTTPException 400 "Content cannot be empty"))
  /\ run Scenario.h
       (retrieve_rag_data {| r_userId := "u1"; r_email := "d1"; r_query := "";
                             r_topK := 10 |})
       Demo.empty_index
     = (Demo.empty_index, [], Raises (HTTPException 400 "Query cannot be empty")).
Proof.
  split.
  - apply (proj1 (fail_fast_validation Scenario.h Demo.empty_index)). reflexivity.
  - apply (proj2 (fail_fast_validation Scenario.h Demo.empty_index)). reflexivity.
Defined.

(** C4, as the code has it.  Neither endpoint looks at the tenant id or the
    document id: the 400 error is raised exactly when the content,
    respectively the query text, is empty or white space only, whatever the
    two ids are. *)
Theorem client_error_iff_blank_text {W : Type} (h : handler W) (w : W) :
  (forall request,
      client_error (outcome_of (run h (store_rag_data request) w))
      <-> PyStr.all_space (s_content request) = true)
  /\ (forall request,
         client_error (outcome_of (run h (retrieve_rag_data request) w))
         <-> PyStr.all_space (r_query request) = true).
Proof.
  split; intros request.
  - apply store_client_error_iff.
  - apply retrieve_client_error_iff.
Qed.

(** C4, as stated, fails: with both ids empty and a non-blank text the store
    endpoint indexes the document under the namespace ["user__"] and the
    query endpoint searches that namespace and answers. *)
Lemma empty_ids_accepted :
  let stored :=
    run Scenario.h
      (store_rag_data {| s_userId := ""; s_email := ""; s_title := "T";
                         s_content := "hello world" |})
      Demo.empty_index in
  outcome_of stored = Returns {| documentId := ""; indexed := true |}
  /\ map fst (upserts (trace_of stored)) = ["user__"]
  /\ outcome_of
       (run Scenario.h
          (retrieve_rag_data {| r_userId := ""; r_email := ""; r_query := "hello";
                                r_topK := 10 |})
          (world_of stored))
     = Returns {| answer := "T"; score := 56 # 1 |}.
Proof. vm_compute. repeat split. Qed.

(** ** Answering a query *)

Lemma context_scores (matches : list ScoredVector) :
  map cc_score (map context_chunk_of (map (format_match true false) matches))
  = map sv_score matches.
Proof. rewrite !map_map. reflexivity. Qed.

(** C7. When the index returns no match the endpoint returns the canned
    answer with score 0 as a normal result; the embedding and the index query
    are the only exchanges, the answer generator is not called. *)
Theorem empty_result_path {W : Type} (h : handler W) (w w1 w2 : W)
    (request : RagRetrieveRequest) (v : vector) :
  is_blank (r_query request) = false ->
  h (EmbedTextWhileSearching (r_query request)) w = (w1, Ok v) ->
  h (query_request request v) w1 = (w2, Ok []) ->
  run h (retrieve_rag_data request) w
  = (w2,
     [Exchange (EmbedTextWhileSearching (r_query request)) (Ok v);
      Exchange (query_request request v) (Ok [])],
     Returns {| answer := no_information; score := 0 # 1 |}).
Proof.
  intros Hq Hembed Hquery.
  rewrite run_retrieve_rag_data by exact Hq. cbv zeta.
  rewrite Hembed, Hquery. reflexivity.
Qed.

Example scored_matches : map sv_score Scored.matches = [9 # 10; 7 # 10; 5 # 10].
Proof. vm_compute. reflexivity. Qed.

Lemma empty_result_path_witness :
  run Scenario.h (retrieve_rag_data Scenario.ask_u1) Demo.empty_index
  = (Demo.empty_index,
     [Exchange (EmbedTextWhileSearching "hello") (Ok (Demo.embed "hello"));
      Exchange (query_request Scenario.ask_u1 (Demo.embed "hello")) (Ok [])],
     Returns {| answer := no_information; score := 0 # 1 |}).
Proof.
  exact (empty_result_path Scenario.h Demo.empty_index Demo.empty_index
           Demo.empty_index Scenario.ask_u1 (Demo.embed "hello")
           eq_refl eq_refl eq_refl).
Defined.

Lemma singleton_step_at (global : option nat) (count : nat)
    (before : list Singleton.pc) (p : Singleton.pc) (after : list Singleton.pc) :
  Singleton.step
    {| Singleton.instance := global; Singleton.constructed := count;
       Singleton.callers := before ++ p :: after |}
    (length before)
  = let '(global', count', p') := Singleton.step_caller global count p in
    {| Singleton.instance := global'; Singleton.constructed := count';
       Singleton.callers := before ++ p' :: after |}.
Proof.
  unfold Singleton.step. cbn [Singleton.callers Singleton.instance Singleton.constructed].
  rewrite lookup_app_r, Nat.sub_diag by lia. cbn [lookup list_lookup].
  destruct (Singleton.step_caller global count p) as [[global' count'] p'].
  rewrite insert_app_r_alt, Nat.sub_diag by lia. reflexivity.
Qed.

(** One caller running alone from the test to the return. *)
Lemma singleton_caller_alone (global : option nat) (count : nat)
    (before after : list Singleton.pc) :
  Singleton.run_schedule (replicate 4 (length before))
    {| Singleton.instance := global; Singleton.constructed := count;
       Singleton.callers := before ++ Singleton.AtCheck :: after |}
  = match global with
    | None =>
        {| Singleton.instance := Some (S count); Singleton.constructed := S count;
           Singleton.callers := before ++ Singleton.Returned (Some (S count)) :: after |}
    | Some i =>
        {| Singleton.instance := Some i; Singleton.constructed := count;
           Singleton.callers := before ++ Singleton.Returned (Some i) :: after |}
    end.
Proof.
  unfold Singleton.run_schedule. cbn [replicate fold_left].
  destruct global as [i |];
    repeat (rewrite singleton_step_at; cbn [Singleton.step_caller]); reflexivity.
Qed.

Lemma singleton_next_caller (j k : nat) :
  (j < k)%nat ->
  Singleton.run_schedule (replicate 4 j) (Singleton.settled j k)
  = Singleton.settled (S j) k.
Proof.
  intros Hjk. unfold Singleton.settled.
  replace (k - j)%nat with (S (k - S j)) by lia.
  rewrite (replicate_S_end j (Singleton.Returned (Some 1%nat))), <- app_assoc.
  change (replicate (S (k - S j)) Singleton.AtCheck)
    with (Singleton.AtCheck :: replicate (k - S j) Singleton.AtCheck).
  pose proof (singleton_caller_alone
                (match j with O => None | S _ => Some 1%nat end)
                (match j with O => 0%nat | S _ => 1%nat end)
                (replicate j (Singleton.Returned (Some 1%nat)))
                (replicate (k - S j) Singleton.AtCheck)) as H.
  rewrite length_replicate in H. rewrite H. destruct j; reflexivity.
Qed.

(** Calls that do not overlap, each finishing before the next begins,
    construct one object, which every one of them returns. *)
Lemma singleton_settles (j k : nat) :
  (j <= k)%nat ->
  Singleton.run_schedule (Singleton.one_after_another j) (Singleton.start k)
  = Singleton.settled j k.
Proof.
  unfold Singleton.one_after_another. induction j as [| j IH]; intros Hjk.
  - simpl. unfold Singleton.settled, Singleton.start. rewrite Nat.sub_0_r. reflexivity.
  - rewrite seq_S, flat_map_app. unfold Singleton.run_schedule in *.
    rewrite fold_left_app, IH by lia.
    apply (singleton_next_caller j k). lia.
Qed.

(** C10, where the code departs from it.  The getters take no lock, so
    nothing excludes a second caller between the test and the assignment.
    Two first calls that both test the global before either assigns it
    construct two objects, the global ends up holding the second, and the
    two callers return different ones: the service is not loaded only once,
    as the docstring of [get_embedding_service] has it. *)
Theorem singleton_overlap_constructs_twice :
  Singleton.run_schedule [0; 1; 0; 0; 0; 1; 1; 1]%nat (Singleton.start 2)
  = {| Singleton.instance := Some 2%nat;
       Singleton.constructed := 2;
       Singleton.callers := [Singleton.Returned (Some 1%nat);
                             Singleton.Returned (Some 2%nat)] |}.
Proof. reflexivity. Qed.

(** ** The small environment meets the node parser contract *)

Lemma demo_nodes_inherit (docs : list Document) :
  nodes_inherit docs (map Demo.node_of docs).
Proof.
  unfold nodes_inherit. apply List.Forall_forall. intros n Hn.
  apply in_map_iff in Hn as (d & <- & Hd). exists d. split; [exact Hd|reflexivity].
Qed.

Lemma demo_node_parser_contract (r : Request) (idx : Pinecone.Index) :
  node_parser_contract r (Scenario.h r idx).2.
Proof.
  destruct r; try exact I. apply demo_nodes_inherit.
Qed.

Lemma chunk_metadata_invariant_witness :
  exists total,
    forall namespace v,
      In (namespace, v) (upserts (trace_of Scenario.after_u1)) ->
      namespace = namespace_of "u1" "d1"
      /\ pv_metadata v !! "user_id" = Some (VStr "u1")
      /\ pv_metadata v !! "total_chunks" = Some (VInt total)
      /\ exists i, pv_metadata v !! "chunk_index" = Some (VInt i) /\ 0 <= i < total.
Proof.
  exact (chunk_metadata_invariant Scenario.h Demo.empty_index Scenario.store_u1
           demo_node_parser_contract).
Defined.

Example stored_chunk_metadata :
  map (fun nv => (nv.1, pv_id nv.2,
                  pv_metadata nv.2 !! "chunk_index",
                  pv_metadata nv.2 !! "total_chunks",
                  pv_metadata nv.2 !! "user_id"))
      (upserts (trace_of Scenario.after_u1))
  = [("user_u1_d1", "node-0", Some (VInt 0), Some (VInt 1), Some (VStr "u1"))].
Proof. vm_compute. reflexivity. Qed.

(** ** A refused batch leaves the earlier ones stored *)

Example partial_ingestion :
  length Partial.vectors = 250%nat
  /\ outcome_of Partial.result
     = Raises (Exception "Vector dimension does not match the dimension of the index")
  /\ map (fun e => length (upserted_of e)) (trace_of Partial.result) = [100; 100]%nat
  /\ Pinecone.records (world_of Partial.result) "user_u1_d1"
     = map Partial.good (seq 0 100).
Proof. vm_compute. repeat split. Qed.

(** * Further properties of the services *)

(** ** [upsert_vectors] beyond the default batch size *)

Lemma range_backwards_empty (n bs : Z) : 0 <= n -> bs < 0 -> Py.range 0 n bs = [].
Proof.
  intros Hn Hbs. unfold Py.range.
  destruct (0 <? bs) eqn:E; [apply Z.ltb_lt in E; lia|].
  replace (Z.to_nat ((0 - n - bs - 1) / - bs)) with 0%nat; [reflexivity|].
  assert (H : (0 - n - bs - 1) / - bs <= 0).
  { assert (Hlt : (0 - n - bs - 1) / - bs < 1); [|lia].
    apply Z.div_lt_upper_bound; lia. }
  lia.
Qed.

(** A batch size of zero makes [range] raise before anything is sent; a
    negative one makes the loop run zero times, so nothing is sent either and
    the call reports zero upserted vectors, whatever the input. *)
Theorem upsert_vectors_no_positive_batch_size {W : Type} (h : handler W) (w : W)
    (vectors : list PineconeVector) (namespace : string) (batch_size : Z) :
  batch_size <= 0 ->
  run h (upsert_vectors vectors namespace batch_size) w
  = (w, [],
     if batch_size =? 0
     then Raises (Exception "range() arg 3 must not be zero")
     else Returns {| upserted_count := 0; upsert_namespace := or_default namespace |}).
Proof.
  intros Hbs. unfold upsert_vectors.
  destruct (batch_size =? 0) eqn:E; [reflexivity|].
  apply Z.eqb_neq in E.
  rewrite range_backwards_empty by (unfold Py.len; lia). reflexivity.
Qed.

Lemma upsert_vectors_no_positive_batch_size_witness :
  run Scenario.h (upsert_vectors Partial.vectors "user_u1_d1" (-5)) Demo.empty_index
  = (Demo.empty_index, [],
     Returns {| upserted_count := 0; upsert_namespace := "user_u1_d1" |}).
Proof.
  exact (upsert_vectors_no_positive_batch_size Scenario.h Demo.empty_index
           Partial.vectors "user_u1_d1" (-5) ltac:(discriminate)).
Defined.

(** An index that accepts every batch sent to [namespace]. *)
Definition accepts_all {W : Type} (h : handler W) (namespace : string) : Prop :=
  forall batch w, (h (IndexUpsert batch namespace) w).2 = Ok tt.

Lemma batch_run_accepted {W : Type} (h : handler W) (namespace : string)
    (w w' : W) (batches : list (list PineconeVector)) (tr : list Entry)
    (failure : option string) :
  accepts_all h namespace ->
  batch_run h namespace w batches w' tr failure ->
  failure = None
  /\ map request_of tr = map (fun batch => IndexUpsert batch namespace) batches.
Proof.
  intros Hall Hrun. induction Hrun as [w | w w1 w2 batch batches tr failure Hh _ IH
                                        | w w1 batch batches msg Hh].
  - split; reflexivity.
  - destruct IH as [-> IH]. split; [reflexivity|]. simpl. rewrite IH. reflexivity.
  - specialize (Hall batch w). rewrite Hh in Hall. discriminate Hall.
Qed.

Lemma upserts_of_requests (tr : list Entry) (namespace : string)
    (batches : list (list PineconeVector)) :
  map request_of tr = map (fun batch => IndexUpsert batch namespace) batches ->
  upserts tr = map (pair namespace) (concat batches).
Proof.
  revert batches. induction tr as [| e tr IH]; intros [| batch batches] H;
    try discriminate H.
  - reflexivity.
  - simpl in H. injection H as He Htr.
    unfold upserts. simpl. fold (upserts tr). rewrite (IH batches Htr).
    unfold upserted_of. rewrite He. rewrite map_app. reflexivity.
Qed.

Lemma run_upsert_vectors_accepted {W : Type} (h : handler W) (w : W)
    (vectors : list PineconeVector) (namespace : string) (batch_size : Z) :
  0 < batch_size ->
  accepts_all h namespace ->
  let result := run h (upsert_vectors vectors namespace batch_size) w in
  outcome_of result
  = Returns {| upserted_count := Py.len vectors;
               upsert_namespace := or_default namespace |}
  /\ upserts (trace_of result) = map (pair namespace) vectors
  /\ Py.len (trace_of result) = (Py.len vectors + batch_size - 1) / batch_size.
Proof.
  intros Hbs Hall result.
  destruct (run_upsert_vectors h vectors namespace batch_size w Hbs)
    as (w' & tr & failure & Hrun & Hbatch).
  destruct (batch_run_accepted h namespace w w' _ tr failure Hall Hbatch)
    as [-> Hreq].
  unfold result. rewrite Hrun. unfold outcome_of, trace_of. simpl.
  split; [reflexivity|]. split.
  - rewrite (upserts_of_requests tr namespace _ Hreq).
    rewrite concat_batches_of by exact Hbs. reflexivity.
  - apply (f_equal (@length Request)) in Hreq. rewrite !length_map in Hreq.
    unfold Py.len at 1. rewrite Hreq. rewrite batches_of_windows by exact Hbs.
    rewrite length_map, length_seq.
    rewrite Z2Nat.id; [reflexivity|]. apply Z.div_pos; unfold Py.len; lia.
Qed.

(** With any positive batch size and an index that accepts every batch,
    each vector is sent exactly once, in the order given, in
    [ceil (n / batch_size)] requests, and the reported count is the number of
    vectors. *)
Theorem upsert_vectors_sends_each_once {W : Type} (h : handler W) (w : W)
    (vectors : list PineconeVector) (namespace : string) (batch_size : Z) :
  0 < batch_size ->
  accepts_all h namespace ->
  let result := run h (upsert_vectors vectors namespace batch_size) w in
  outcome_of result
  = Returns {| upserted_count := Py.len vectors;
               upsert_namespace := or_default namespace |}
  /\ upserts (trace_of result) = map (pair namespace) vectors
  /\ Py.len (trace_of result) = (Py.len vectors + batch_size - 1) / batch_size.
Proof. exact (run_upsert_vectors_accepted h w vectors namespace batch_size). Qed.

Lemma upsert_vectors_sends_each_once_witness :
  let result := run agreeable (upsert_vectors Partial.vectors "ns" 7) 0%nat in
  outcome_of result
  = Returns {| upserted_count := 250; upsert_namespace := "ns" |}
  /\ upserts (trace_of result) = map (pair "ns") Partial.vectors
  /\ Py.len (trace_of result) = 36.
Proof.
  exact (upsert_vectors_sends_each_once agreeable 0%nat Partial.vectors "ns" 7
           ltac:(reflexivity) ltac:(intros batch w; reflexivity)).
Defined.

(** ** [store_documents]: pairing nodes with embeddings *)

Lemma length_zip {A B : Type} (xs : list A) (ys : list B) :
  length (Py.zip xs ys) = Nat.min (length xs) (length ys).
Proof.
  revert ys. induction xs as [| x xs IH]; intros [| y ys]; simpl; try reflexivity.
  rewrite IH. reflexivity.
Qed.

Lemma run_store_documents {W : Type} (h : handler W) (w : W) (nodes : list Node)
    (embeddings : list vector) (user_id email_id title : string) :
  run h (store_documents nodes embeddings user_id email_id title) w
  = let '(w', tr, res) :=
      run h (upsert_vectors
               (map (pinecone_vector_of user_id email_id title)
                  (Py.zip nodes embeddings))
               (namespace_of user_id email_id) 100) w in
    (w', tr,
     match res with
     | Returns upsert_result =>
         Returns {| vectors_stored := upserted_count upsert_result;
                    storage_namespace := namespace_of user_id email_id;
                    storage_user_id := user_id;
                    storage_email_id := email_id |}
     | Raises e => Raises e
     end).
Proof.
  unfold store_documents. rewrite run_bind.
  destruct (run h (upsert_vectors _ _ 100) w) as [[w' tr] [res | e]];
    [|reflexivity].
  simpl. rewrite app_nil_r. reflexivity.
Qed.

(** [store_documents] pairs node [i] with embedding [i] and stops at the
    shorter list: when the index accepts every batch, the records sent are,
    in order, one per pair, each with the id of its node and the embedding at
    the same position, and the reported count is the shorter length.  A
    surplus of nodes or of embeddings is dropped without an error. *)
Theorem store_documents_pairs_in_order {W : Type} (h : handler W) (w : W)
    (nodes : list Node) (embeddings : list vector)
    (user_id email_id title : string) :
  accepts_all h (namespace_of user_id email_id) ->
  let result := run h (store_documents nodes embeddings user_id email_id title) w in
  outcome_of result
  = Returns {| vectors_stored :=
                 Z.of_nat (Nat.min (length nodes) (length embeddings));
               storage_namespace := namespace_of user_id email_id;
               storage_user_id := user_id;
               storage_email_id := email_id |}
  /\ map (fun nv => (nv.1, pv_id nv.2, pv_values nv.2)) (upserts (trace_of result))
     = map (fun ne => (namespace_of user_id email_id, node_id ne.1, ne.2))
           (Py.zip nodes embeddings).
Proof.
  intros Hall result. unfold result. rewrite run_store_documents.
  pose proof (run_upsert_vectors_accepted h w
                (map (pinecone_vector_of user_id email_id title)
                   (Py.zip nodes embeddings))
                (namespace_of user_id email_id) 100 ltac:(lia) Hall) as H.
  cbv zeta in H. destruct H as (Hout & Hups & _).
  destruct (run h (upsert_vectors _ _ 100) w) as [[w' tr] res].
  unfold outcome_of, trace_of in *. simpl in *. subst res. split.
  - simpl. unfold Py.len. rewrite length_map, length_zip. reflexivity.
  - rewrite Hups, !map_map. reflexivity.
Qed.

Lemma store_documents_pairs_in_order_witness :
  let nodes := map Demo.node_of
                 (chunk_documents Scenario.store_u1 "2024" ["a"; "b"; "c"]) in
  let result :=
    run agreeable
      (store_documents nodes [Demo.embed "a"; Demo.embed "b"] "u1" "d1" "T")
      0%nat in
  outcome_of result
  = Returns {| vectors_stored := 2; storage_namespace := "user_u1_d1";
               storage_user_id := "u1"; storage_email_id := "d1" |}
  /\ map (fun nv => (nv.1, pv_id nv.2, pv_values nv.2)) (upserts (trace_of result))
     = [("user_u1_d1", "node-0", Demo.embed "a");
        ("user_u1_d1", "node-1", Demo.embed "b")].
Proof.
  exact (store_documents_pairs_in_order agreeable 0%nat
           (map Demo.node_of
              (chunk_documents Scenario.store_u1 "2024" ["a"; "b"; "c"]))
           [Demo.embed "a"; Demo.embed "b"] "u1" "d1" "T"
           ltac:(intros batch w; reflexivity)).
Defined.

(** ** The fields of a stored record *)

(** The part of [store_rag_data] that follows [datetime.now()]. *)
Definition store_after_now (request : RagStoreRequest) (chunks : list string)
    (timestamp : string) : Prog RagStoreResponse :=
  nodes <- call (GetNodesFromDocuments 1024 150
                   (chunk_documents request timestamp chunks));;
  embeddings <- call (EmbedTextsWhileStoring (map get_content nodes));;
  _ <- store_documents nodes embeddings
         (s_userId request) (s_email request) (s_title request);;
  Ret {| documentId := s_email request; indexed := true |}.

Arguments store_after_now : simpl never.

Lemma trace_store_after_split {W : Type} (h : handler W) (w : W)
    (request : RagStoreRequest) (chunks : list string) :
  trace_of (run h (store_after_split request chunks) w) =
  match (h Now w).2 with
  | Ok timestamp =>
      Exchange Now (Ok timestamp)
        :: trace_of (run h (store_after_now request chunks timestamp) (h Now w).1)
  | Raised msg => [Exchange Now (Raised msg)]
  end.
Proof.
  change (store_after_split request chunks)
    with (timestamp <- call Now;; store_after_now request chunks timestamp).
  rewrite run_bind, run_call.
  destruct (h Now w) as [w1 [timestamp | msg]]; cbn [fst snd]; [|reflexivity].
  destruct (run h (store_after_now request chunks timestamp) w1) as [[w2 tr] res].
  reflexivity.
Qed.

(** What a stored record carries besides its chunk position. *)
Definition record_described (request : RagStoreRequest) (timestamp : string)
    (v : PineconeVector) : Prop :=
  pv_metadata v !! "email_id" = Some (VStr (s_email request))
  /\ pv_metadata v !! "title" = Some (VStr (s_title request))
  /\ (exists text, pv_metadata v !! "text" = Some (VStr text))
  /\ pv_metadata v !! "timestamp" = Some (VStr timestamp)
  /\ pv_metadata v !! "source_type" = Some (VStr "email").

Definition described (request : RagStoreRequest) (timestamp : string)
    (r : Request) : Prop :=
  match r with
  | IndexUpsert vectors _ => forall v, In v vectors -> record_described request timestamp v
  | _ => True
  end.

Lemma chunk_documents_described (request : RagStoreRequest) (timestamp : string)
    (chunks : list string) (d : Document) :
  In d (chunk_documents request timestamp chunks) ->
  extra_info d !! "timestamp" = Some (VStr timestamp)
  /\ extra_info d !! "source_type" = Some (VStr "email").
Proof.
  unfold chunk_documents. intros H. apply in_map_iff in H as ([i c] & <- & _).
  simpl. unfold chunk_extra_info. split; by simplify_map_eq.
Qed.

Lemma safe_store_after_now (request : RagStoreRequest) (chunks : list string)
    (timestamp : string) :
  safe (described request timestamp) node_parser_contract
       (store_after_now request chunks timestamp) (fun _ => True).
Proof.
  unfold store_after_now.
  eapply safe_bind; [apply safe_call; exact I|]. intros nodes Hnodes.
  eapply safe_bind; [apply safe_call; exact I|]. intros embeddings _.
  eapply safe_bind with (Q := fun _ => True); [|intros; exact I].
  unfold store_documents.
  eapply safe_bind with (Q := fun _ => True); [|intros; exact I].
  apply safe_upsert_vectors. intros batch Hsub. simpl.
  intros v Hv. apply Hsub, in_map_iff in Hv as ([n emb] & <- & Hin).
  apply zip_in_l in Hin. simpl in Hnodes. unfold nodes_inherit in Hnodes.
  rewrite List.Forall_forall in Hnodes. destruct (Hnodes n Hin) as (d & Hd & Hmeta).
  apply chunk_documents_described in Hd as (Hts & Hsrc).
  unfold record_described.
  split; [unfold pinecone_vector_of; simpl; by simplify_map_eq|].
  split; [unfold pinecone_vector_of; simpl; by simplify_map_eq|].
  split; [eexists; unfold pinecone_vector_of; simpl; by simplify_map_eq|].
  rewrite !pinecone_vector_of_other by discriminate. simpl. rewrite Hmeta.
  split; assumption.
Qed.

(** Every record one call of [store_rag_data] hands to the index carries the
    document id and the title of the request, a text, the source type
    ["email"] and a creation time stamp, and the time stamp is the same for
    all records of the call; the node parser is assumed to give each node the
    metadata of its document. *)
Theorem stored_record_fields {W : Type} (h : handler W) (w : W)
    (request : RagStoreRequest) :
  (forall r w, node_parser_contract r (h r w).2) ->
  exists timestamp,
    forall namespace v,
      In (namespace, v) (upserts (trace_of (run h (store_rag_data request) w))) ->
      pv_metadata v !! "email_id" = Some (VStr (s_email request))
      /\ pv_metadata v !! "title" = Some (VStr (s_title request))
      /\ (exists text, pv_metadata v !! "text" = Some (VStr text))
      /\ pv_metadata v !! "timestamp" = Some (VStr timestamp)
      /\ pv_metadata v !! "source_type" = Some (VStr "email").
Proof.
  intros Hh. rewrite trace_store_rag_data.
  destruct (is_blank (s_content request)); [exists ""; intros ? ? []|].
  cbv zeta.
  destruct (h (SplitText 1024 150 (s_content request)) w) as [w1 [chunks | msg]];
    cbn [fst snd]; [|exists ""; intros ? ? []].
  rewrite trace_store_after_split.
  destruct (h Now w1) as [w2 [timestamp | msg]]; cbn [fst snd];
    [|exists ""; intros ? ? H; simpl in H; contradiction].
  exists timestamp. intros namespace v Hin.
  change (In (namespace, v)
            (upserts (trace_of (run h (store_after_now request chunks timestamp) w2))))
    in Hin.
  apply in_upserts in Hin as (e & vectors & He & Hreq & Hv).
  destruct (safe_run _ _ h _ _ w2 Hh (safe_store_after_now request chunks timestamp))
    as [Htrace _].
  rewrite List.Forall_forall in Htrace. specialize (Htrace e He).
  rewrite Hreq in Htrace. exact (Htrace v Hv).
Qed.

Lemma stored_record_fields_witness :
  exists timestamp,
    forall namespace v,
      In (namespace, v) (upserts (trace_of Scenario.after_u1)) ->
      pv_metadata v !! "email_id" = Some (VStr "d1")
      /\ pv_metadata v !! "title" = Some (VStr "T")
      /\ (exists text, pv_metadata v !! "text" = Some (VStr text))
      /\ pv_metadata v !! "timestamp" = Some (VStr timestamp)
      /\ pv_metadata v !! "source_type" = Some (VStr "email").
Proof.
  exact (stored_record_fields Scenario.h Demo.empty_index Scenario.store_u1
           demo_node_parser_contract).
Defined.

(** ** How failures surface *)

(** The message of a refused request. *)
Definition refusal (e : Entry) : option string :=
  match e with
  | Exchange _ (Ok _) => None
  | Exchange _ (Raised msg) => Some msg
  end.

(** A program that raises nothing of its own: it returns a value satisfying
    [Q], or it stops at the first refused request and raises its message. *)
Fixpoint relays {A : Type} (p : Prog A) (Q : A -> Prop) : Prop :=
  match p with
  | Ret a => Q a
  | Throw _ => False
  | Call r k =>
      (forall x, relays (k (Ok x)) Q)
      /\ (forall msg, k (Raised msg) = Throw (Exception msg))
  end.

Lemma relays_call (r : Request) : relays (call r) (fun _ => True).
Proof. simpl. split; [intros; exact I | reflexivity]. Qed.

Lemma relays_bind {A B : Type} (p : Prog A) (f : A -> Prog B)
    (Q : A -> Prop) (Q' : B -> Prop) :
  relays p Q -> (forall a, Q a -> relays (f a) Q') -> relays (bind p f) Q'.
Proof.
  intros Hp Hf. induction p as [a | e | r k IH]; simpl in *.
  - auto.
  - contradiction.
  - destruct Hp as [Hok Hraised]. split.
    + intros x. apply IH, Hok.
    + intros msg. rewrite Hraised. reflexivity.
Qed.

Lemma relays_upsert_loop (vectors : list PineconeVector) (namespace : string)
    (bs : Z) (starts : list Z) (total : Z) :
  relays (upsert_loop vectors namespace bs starts total) (fun _ => True).
Proof.
  revert total. induction starts as [| i starts IH]; intros total; simpl.
  - exact I.
  - split; [intros x; apply IH | reflexivity].
Qed.

Lemma relays_store_documents (nodes : list Node) (embeddings : list vector)
    (user_id email_id title : string) :
  relays (store_documents nodes embeddings user_id email_id title) (fun _ => True).
Proof.
  unfold store_documents, upsert_vectors.
  eapply relays_bind with (Q := fun _ => True); [|intros; exact I].
  change (100 =? 0) with false. cbv iota.
  eapply relays_bind; [apply relays_upsert_loop|]. intros; exact I.
Qed.

(** The outcome and the trace of a relaying program. *)
Definition relayed {A : Type} (Q : A -> Prop) (tr : list Entry) (res : outcome A)
  : Prop :=
  match res with
  | Returns a => Q a /\ Forall (fun e => refusal e = None) tr
  | Raises e =>
      exists earlier last msg,
        tr = earlier ++ [last]
        /\ Forall (fun e => refusal e = None) earlier
        /\ refusal last = Some msg
        /\ e = Exception msg
  end.

Lemma run_relays {W A : Type} (h : handler W) (p : Prog A) (Q : A -> Prop) (w : W) :
  relays p Q -> relayed Q (trace_of (run h p w)) (outcome_of (run h p w)).
Proof.
  revert w. induction p as [a | e | r k IH]; intros w Hp; simpl in *.
  - split; [exact Hp | constructor].
  - contradiction.
  - destruct Hp as [Hok Hraised]. destruct (h r w) as [w1 [x | msg]].
    + specialize (IH (Ok x) w1 (Hok x)).
      destruct (run h (k (Ok x)) w1) as [[w2 tr] [a | e]];
        unfold trace_of, outcome_of in *; simpl in *.
      * destruct IH as [Ha Htr]. split; [exact Ha|]. constructor; [reflexivity|exact Htr].
      * destruct IH as (earlier & last & msg & -> & Hearlier & Hlast & ->).
        exists (Exchange r (Ok x) :: earlier), last, msg.
        split; [reflexivity|]. split; [constructor; [reflexivity|exact Hearlier]|].
        split; [exact Hlast | reflexivity].
    + rewrite Hraised. unfold trace_of, outcome_of. simpl.
      exists [], (Exchange r (Raised msg)), msg.
      split; [reflexivity|]. split; [constructor|]. split; reflexivity.
Qed.

(** What an endpoint makes of a relaying body: the value, or a 500 whose
    detail is the prefix followed by the message of the refused request,
    which is the last request made. *)
Definition surfaced {A : Type} (prefix : string) (Q : A -> Prop)
    (tr : list Entry) (res : outcome A) : Prop :=
  match res with
  | Returns a => Q a /\ Forall (fun e => refusal e = None) tr
  | Raises e =>
      exists earlier last msg,
        tr = earlier ++ [last]
        /\ Forall (fun e => refusal e = None) earlier
        /\ refusal last = Some msg
        /\ e = HTTPException 500 (prefix +:+ msg)
  end.

Lemma run_guarded_relays {W A : Type} (h : handler W) (p : Prog A)
    (prefix : string) (Q : A -> Prop) (w : W) :
  relays p Q ->
  let result := run h (try_except p (http_guard prefix)) w in
  surfaced prefix Q (trace_of result) (outcome_of result).
Proof.
  intros Hp result. unfold result. rewrite run_try_except.
  pose proof (run_relays h p Q w Hp) as H.
  destruct (run h p w) as [[w1 tr] [a | e]]; unfold trace_of, outcome_of in *;
    simpl in *; [exact H|].
  destruct H as (earlier & last & msg & -> & Hearlier & Hlast & ->).
  simpl. rewrite app_nil_r. exists earlier, last, msg. auto.
Qed.

Lemma relays_store_after_split (request : RagStoreRequest) (chunks : list string) :
  relays (store_after_split request chunks)
         (fun response =>
            response = {| documentId := s_email request; indexed := true |}).
Proof.
  unfold store_after_split.
  eapply relays_bind; [apply relays_call|]. intros timestamp _. cbn [bind].
  eapply relays_bind; [apply relays_call|]. intros nodes _.
  eapply relays_bind; [apply relays_call|]. intros embeddings _.
  eapply relays_bind; [apply relays_store_documents|]. intros; reflexivity.
Qed.

Lemma run_store_rag_data_surfaced {W : Type} (h : handler W) (w : W)
    (request : RagStoreRequest) :
  let result := run h (store_rag_data request) w in
  (outcome_of result = Raises (HTTPException 400 "Content cannot be empty")
   /\ trace_of result = [])
  \/ surfaced "Failed to store data: "
       (fun response =>
          response = {| documentId := s_email request; indexed := true |})
       (trace_of result) (outcome_of result).
Proof.
  intros result. unfold result. rewrite store_rag_data_unfold.
  destruct (is_blank (s_content request)).
  - left. split; reflexivity.
  - right. apply run_guarded_relays.
    eapply relays_bind; [apply relays_call|]. intros chunks _.
    apply relays_store_after_split.
Qed.

(** Whenever each collaborator returns or raises an [Exception],
    [store_rag_data] ends in one of three ways: it returns the document id
    with [indexed = True] after every request was accepted; it raises the 400
    error without a single request; or it raises a 500 whose detail is
    ["Failed to store data: "] followed by the message of the one request
    that was refused, which is the last request it made.  An exception that
    is no [Exception] ([KeyboardInterrupt], [SystemExit]) is caught by
    neither [except] clause and is not covered. *)
Theorem store_rag_data_outcomes {W : Type} (h : handler W) (w : W)
    (request : RagStoreRequest) :
  let result := run h (store_rag_data request) w in
  (outcome_of result = Raises (HTTPException 400 "Content cannot be empty")
   /\ trace_of result = [])
  \/ surfaced "Failed to store data: "
       (fun response =>
          response = {| documentId := s_email request; indexed := true |})
       (trace_of result) (outcome_of result).
Proof. exact (run_store_rag_data_surfaced h w request). Qed.

(** ** Nothing to index *)

Lemma upsert_vectors_nil (namespace : string) :
  upsert_vectors [] namespace 100
  = Ret {| upserted_count := 0; upsert_namespace := or_default namespace |}.
Proof. reflexivity. Qed.

(** When the splitter, the node parser or the embedder leaves no
    (node, embedding) pair, [store_rag_data] sends nothing to the index and
    still answers [indexed = True]. *)
Theorem store_rag_data_nothing_to_index {W : Type} (h : handler W)
    (w w1 w2 w3 w4 : W) (request : RagStoreRequest) (chunks : list string)
    (timestamp : string) (nodes : list Node) (embeddings : list vector) :
  is_blank (s_content request) = false ->
  h (SplitText 1024 150 (s_content request)) w = (w1, Ok chunks) ->
  h Now w1 = (w2, Ok timestamp) ->
  h (GetNodesFromDocuments 1024 150 (chunk_documents request timestamp chunks)) w2
  = (w3, Ok nodes) ->
  h (EmbedTextsWhileStoring (map get_content nodes)) w3 = (w4, Ok embeddings) ->
  Py.zip nodes embeddings = [] ->
  let result := run h (store_rag_data request) w in
  outcome_of result = Returns {| documentId := s_email request; indexed := true |}
  /\ upserts (trace_of result) = []
  /\ world_of result = w4.
Proof.
  intros Hb Hsplit Hnow Hnodes Hembed Hzip result. unfold result.
  rewrite store_rag_data_unfold, Hb, run_try_except, run_bind, run_call, Hsplit.
  cbn [fst snd]. unfold store_after_split.
  rewrite run_bind, run_call, Hnow. cbn [fst snd bind].
  rewrite run_bind, run_call, Hnodes. cbn [fst snd].
  rewrite run_bind, run_call, Hembed. cbn [fst snd].
  rewrite run_bind, run_store_documents, Hzip. cbn [map].
  rewrite upsert_vectors_nil. simpl. repeat split.
Qed.

Lemma store_rag_data_nothing_to_index_witness :
  let silent :=
    handle {| split_text := fun _ _ _ => Ok [];
              get_nodes_from_documents := get_nodes_from_documents Demo.env;
              now := now Demo.env;
              embed_text_while_searching := embed_text_while_searching Demo.env;
              embed_texts_while_storing := embed_texts_while_storing Demo.env;
              similarity := similarity Demo.env;
              generate_response := generate_response Demo.env |} in
  let result := run silent (store_rag_data Scenario.store_u1) Demo.empty_index in
  outcome_of result = Returns {| documentId := "d1"; indexed := true |}
  /\ upserts (trace_of result) = []
  /\ world_of result = Demo.empty_index.
Proof.
  exact (store_rag_data_nothing_to_index _ Demo.empty_index Demo.empty_index
           Demo.empty_index Demo.empty_index Demo.empty_index Scenario.store_u1
           [] "2024-01-01T00:00:00" [] []
           eq_refl eq_refl eq_refl eq_refl eq_refl eq_refl).
Defined.

(** ** Queries do not write *)

Definition reads_only (r : Request) : Prop :=
  match r with
  | IndexUpsert _ _ => False
  | _ => True
  end.

Lemma safe_retrieve_reads_only (request : RagRetrieveRequest) :
  safe reads_only no_contract (retrieve_rag_data request) (fun _ => True).
Proof.
  unfold retrieve_rag_data.
  apply safe_try_except; [|intros; apply safe_http_guard].
  destruct (is_blank (r_query request)); [exact I|].
  eapply safe_bind; [apply safe_call; exact I|]. intros query_embedding _.
  eapply safe_bind with (Q := fun _ => True).
  - unfold query_vectors. eapply safe_bind; [apply safe_call; exact I|].
    intros; exact I.
  - intros [| m ms] _; [exact I|].
    eapply safe_bind; [apply safe_call; exact I|]. intros; exact I.
Qed.

Lemma safe_search_reads_only (query_vector : vector) (user_id : string)
    (top_k : Z) (email_id : option string) :
  safe reads_only no_contract
       (search_documents query_vector user_id top_k email_id) (fun _ => True).
Proof.
  unfold search_documents, query_vectors.
  eapply safe_bind; [apply safe_call; exact I|]. intros; exact I.
Qed.

Lemma upserts_reads_only (tr : list Entry) :
  Forall (fun e => reads_only (request_of e)) tr -> upserts tr = [].
Proof.
  induction 1 as [| e tr He _ IH]; [reflexivity|].
  unfold upserts. simpl. fold (upserts tr). rewrite IH, app_nil_r.
  unfold upserted_of. destruct (request_of e); try reflexivity. contradiction.
Qed.

Lemma handle_reads_only (env : Env) (r : Request) (idx : Pinecone.Index) :
  reads_only r -> (handle env r idx).1 = idx.
Proof. destruct r; simpl; try reflexivity. contradiction. Qed.

(** [retrieve_rag_data] and [search_documents] never send an upsert,
    whatever the collaborators answer, and they leave the reference index
    exactly as it was. *)
Theorem queries_do_not_write (env : Env) (idx : Pinecone.Index) :
  (forall request,
      let result := run (handle env) (retrieve_rag_data request) idx in
      upserts (trace_of result) = [] /\ world_of result = idx)
  /\ (forall query_vector user_id top_k email_id,
         let result :=
           run (handle env) (search_documents query_vector user_id top_k email_id)
             idx in
         upserts (trace_of result) = [] /\ world_of result = idx).
Proof.
  split.
  - intros request result. split.
    + apply upserts_reads_only.
      apply (safe_run reads_only no_contract (handle env) _ _ idx (fun _ _ => I)
               (safe_retrieve_reads_only request)).
    + apply (run_invariant (handle env) reads_only (fun w => w = idx))
        with (Q := fun _ => True).
      * intros r w Hr ->. apply handle_reads_only, Hr.
      * apply safe_retrieve_reads_only.
      * reflexivity.
  - intros query_vector user_id top_k email_id result. split.
    + apply upserts_reads_only.
      apply (safe_run reads_only no_contract (handle env) _ _ idx (fun _ _ => I)
               (safe_search_reads_only query_vector user_id top_k email_id)).
    + apply (run_invariant (handle env) reads_only (fun w => w = idx))
        with (Q := fun _ => True).
      * intros r w Hr ->. apply handle_reads_only, Hr.
      * apply safe_search_reads_only.
      * reflexivity.
Qed.

(** ** Storing, then asking *)

(** Some record of the list is tagged with [user_id]. *)
Definition holds_record_of (user_id : string) (rs : list PineconeVector) : Prop :=
  exists r, In r rs /\ pv_metadata r !! "user_id" = Some (VStr user_id).

Lemma in_upsert_one (v : PineconeVector) (rs : list PineconeVector) :
  In v (Pinecone.upsert_one v rs).
Proof.
  induction rs as [| r rs IH]; simpl; [left; reflexivity|].
  destruct (bool_decide (pv_id r = pv_id v)); simpl; auto.
Qed.

Lemma holds_after_batch (user_id : string) (batch rs : list PineconeVector) :
  (forall v, In v batch -> pv_metadata v !! "user_id" = Some (VStr user_id)) ->
  batch <> [] \/ holds_record_of user_id rs ->
  holds_record_of user_id (fold_left (fun rs v => Pinecone.upsert_one v rs) batch rs).
Proof.
  revert rs. induction batch as [| v batch IH]; intros rs Htag H; simpl.
  - destruct H as [H | H]; [contradiction | exact H].
  - apply IH; [intros v' Hv'; apply Htag; right; exact Hv'|].
    right. exists v. split; [apply in_upsert_one | apply Htag; left; reflexivity].
Qed.

(** A non-empty batch that the index accepted. *)
Definition accepted_records (e : Entry) : bool :=
  match request_of e, refusal e with
  | IndexUpsert (_ :: _) _, None => true
  | _, _ => false
  end.

Lemma run_trace_invariant {W A : Type} (h : handler W) (P : Request -> Prop)
    (Inv : W -> list Entry -> Prop) (p : Prog A) (Q : A -> Prop) (w : W)
    (tr0 : list Entry) :
  (forall r w tr, P r -> Inv w tr -> Inv (h r w).1 (tr ++ [Exchange r (h r w).2])) ->
  safe P no_contract p Q ->
  Inv w tr0 ->
  Inv (world_of (run h p w)) (tr0 ++ trace_of (run h p w)).
Proof.
  intros Hstep. revert w tr0. induction p as [a | e | r k IH]; intros w tr0 Hp Hw;
    simpl in *.
  - unfold trace_of. simpl. rewrite app_nil_r. exact Hw.
  - unfold trace_of. simpl. rewrite app_nil_r. exact Hw.
  - destruct Hp as [Hr Hk]. pose proof (Hstep r w tr0 Hr Hw) as Hw1.
    destruct (h r w) as [w1 rp]. simpl in Hw1.
    specialize (IH rp w1 (tr0 ++ [Exchange r rp]) (Hk rp I) Hw1).
    destruct (run h (k rp) w1) as [[w2 tr] res].
    unfold world_of, trace_of in *. simpl in *.
    rewrite <- app_assoc in IH. exact IH.
Qed.

Lemma store_leaves_record (env : Env) (idx : Pinecone.Index)
    (request : RagStoreRequest) :
  let result := run (handle env) (store_rag_data request) idx in
  existsb accepted_records (trace_of result) = true ->
  holds_record_of (s_userId request)
    (Pinecone.records (world_of result)
       (namespace_of (s_userId request) (s_email request))).
Proof.
  intros result.
  apply (run_trace_invariant (handle env)
           (owner_tagged (s_userId request) (s_email request))
           (fun w tr =>
              existsb accepted_records tr = true ->
              holds_record_of (s_userId request)
                (Pinecone.records w
                   (namespace_of (s_userId request) (s_email request))))
           (store_rag_data request) (fun _ => True) idx []).
  - intros r w tr Hr Hw. rewrite existsb_app. simpl. rewrite orb_false_r.
    destruct r; simpl;
      try (rewrite orb_false_r; exact Hw);
      try (unfold accepted_records; simpl;
           match goal with |- context [refusal ?e] => destruct (refusal e) end;
           rewrite orb_false_r; exact Hw).
    destruct Hr as [-> Htag]. unfold Pinecone.upsert.
    destruct (forallb (Pinecone.well_sized w) vectors); simpl.
    + intros H. unfold Pinecone.records. simpl. rewrite lookup_insert_eq. simpl.
      apply holds_after_batch; [exact Htag|].
      unfold accepted_records in H. simpl in H.
      destruct vectors as [| v vectors]; [|left; discriminate].
      right. apply Hw. rewrite orb_false_r in H. exact H.
    + unfold accepted_records. simpl.
      destruct vectors; rewrite orb_false_r; exact Hw.
  - apply safe_store_rag_data_owner.
  - discriminate.
Qed.

Lemma accepted_of_upserts (tr : list Entry) :
  Forall (fun e => refusal e = None) tr ->
  upserts tr <> [] ->
  existsb accepted_records tr = true.
Proof.
  induction 1 as [| e tr He _ IH]; intros Hne; [contradiction Hne; reflexivity|].
  simpl. unfold upserts in Hne. simpl in Hne. fold (upserts tr) in Hne.
  unfold accepted_records, upserted_of in *. rewrite He.
  destruct (request_of e) as [ | | | | | [| v vectors] namespace | | ];
    simpl in *; try (apply IH; exact Hne).
  reflexivity.
Qed.

Lemma length_insert_ranked (m : ScoredVector) (ms : list ScoredVector) :
  length (Pinecone.insert_ranked m ms) = S (length ms).
Proof.
  induction ms as [| m' ms IH]; simpl; [reflexivity|].
  destruct (Qle_bool (sv_score m) (sv_score m')); simpl; [rewrite IH|]; reflexivity.
Qed.

Lemma length_rank (ms : list ScoredVector) :
  length (Pinecone.rank ms) = length ms.
Proof.
  unfold Pinecone.rank. induction ms as [| m ms IH]; simpl; [reflexivity|].
  rewrite length_insert_ranked, IH. reflexivity.
Qed.

(** A namespace holding a record of the owner answers a filtered query for
    at least one match with something. *)
Lemma query_finds_record (sim : vector -> vector -> Q) (idx : Pinecone.Index)
    (qv : vector) (top_k : Z) (user_id namespace : string) :
  1 <= top_k ->
  holds_record_of user_id (Pinecone.records idx namespace) ->
  Pinecone.query sim idx qv top_k (owner_filter user_id) namespace true false <> [].
Proof.
  intros Hk (r & Hr & Htag) Hnil.
  apply (f_equal (@length ScoredVector)) in Hnil.
  unfold Pinecone.query in Hnil.
  rewrite length_take, length_rank, length_map in Hnil. simpl in Hnil.
  assert (Hin : In r (List.filter
                        (fun r => Pinecone.matches_filter (owner_filter user_id)
                                    (pv_metadata r))
                        (Pinecone.records idx namespace))).
  { apply filter_In. split; [exact Hr|]. apply matches_filter_singleton, Htag. }
  destruct (List.filter _ _) as [| r0 rs]; [contradiction|]. simpl in Hnil. lia.
Qed.

(** What [store_rag_data] stored is found by [retrieve_rag_data] for the same
    tenant id and document id: if the store call returned and sent at least
    one record, then a later query with a non-blank text, an embedding that
    succeeds and [topK >= 1] gets at least one match from the reference
    index, every match carries the tenant's [user_id], and the answer
    generator is asked with these matches. *)
Theorem store_then_retrieve_finds (env : Env) (idx : Pinecone.Index)
    (stored : RagStoreRequest) (asked : RagRetrieveRequest) (v : vector) :
  r_userId asked = s_userId stored ->
  r_email asked = s_email stored ->
  let ingest := run (handle env) (store_rag_data stored) idx in
  (exists response, outcome_of ingest = Returns response) ->
  upserts (trace_of ingest) <> [] ->
  is_blank (r_query asked) = false ->
  embed_text_while_searching env (r_query asked) = Ok v ->
  1 <= r_topK asked ->
  let reply := run (handle env) (retrieve_rag_data asked) (world_of ingest) in
  exists m ms,
    matched (trace_of reply) = m :: ms
    /\ (forall m', In m' (m :: ms) ->
          exists md, sv_metadata m' = Some md
                     /\ md !! "user_id" = Some (VStr (s_userId stored)))
    /\ In (generate_request asked (m :: ms)) (map request_of (trace_of reply)).
Proof.
  intros Huser Hemail ingest [response Hret] Hsent Hq Hembed Hk reply.
  assert (Hholds : holds_record_of (s_userId stored)
                     (Pinecone.records (world_of ingest)
                        (namespace_of (s_userId stored) (s_email stored)))).
  { apply store_leaves_record. apply accepted_of_upserts; [|exact Hsent].
    destruct (run_store_rag_data_surfaced (handle env) idx stored) as [[H _] | H].
    - fold ingest in H. rewrite Hret in H. discriminate H.
    - fold ingest in H. rewrite Hret in H. exact (proj2 H). }
  pose proof (query_finds_record (similarity env) (world_of ingest) v
                (r_topK asked) (s_userId stored)
                (namespace_of (s_userId stored) (s_email stored)) Hk Hholds)
    as Hfound.
  assert (Htagged : forall m',
             In m' (Pinecone.query (similarity env) (world_of ingest) v
                      (r_topK asked) (owner_filter (s_userId stored))
                      (namespace_of (s_userId stored) (s_email stored)) true false) ->
             exists md, sv_metadata m' = Some md
                        /\ md !! "user_id" = Some (VStr (s_userId stored))).
  { intros m' Hm'. apply in_query in Hm' as (r & _ & Hf & ->).
    apply matches_filter_singleton in Hf. exists (pv_metadata r). split; [reflexivity|exact Hf]. }
  unfold reply. rewrite run_retrieve_rag_data by exact Hq. cbv zeta.
  unfold query_request. rewrite Huser, Hemail. simpl. rewrite Hembed.
  fold (owner_filter (s_userId stored)).
  destruct (Pinecone.query _ _ _ _ _ _ _ _) as [| m ms]; [contradiction|].
  exists m, ms. unfold trace_of. simpl. rewrite app_nil_r.
  split; [reflexivity|]. split; [exact Htagged|].
  right. right. left. unfold generate_request. reflexivity.
Qed.

Lemma store_then_retrieve_finds_witness :
  exists m ms,
    matched (trace_of (run Scenario.h (retrieve_rag_data Scenario.ask_u1)
                         (world_of Scenario.after_u1)))
    = m :: ms
    /\ (forall m', In m' (m :: ms) ->
          exists md, sv_metadata m' = Some md /\ md !! "user_id" = Some (VStr "u1"))
    /\ In (generate_request Scenario.ask_u1 (m :: ms))
          (map request_of
             (trace_of (run Scenario.h (retrieve_rag_data Scenario.ask_u1)
                          (world_of Scenario.after_u1)))).
Proof.
  exact (store_then_retrieve_finds Demo.env Demo.empty_index Scenario.store_u1
           Scenario.ask_u1 (Demo.embed "hello") eq_refl eq_refl
           (ex_intro _ _ eq_refl) ltac:(vm_compute; discriminate)
           eq_refl eq_refl ltac:(discriminate)).
Defined.

(** ** [search_documents] and its filter *)

(** A record passes a filter exactly when it has every entry of the filter. *)
Lemma matches_filter_iff (f metadata : gmap string MVal) :
  Pinecone.matches_filter (Some f) metadata = true
  <-> forall key value, f !! key = Some value -> metadata !! key = Some value.
Proof.
  unfold Pinecone.matches_filter. rewrite forallb_forall. split.
  - intros H key value Hf.
    specialize (H (key, value)). simpl in H.
    eapply bool_decide_eq_true_1, H, list_elem_of_In, elem_of_map_to_list, Hf.
  - intros H [key value] Hin. simpl. apply bool_decide_eq_true_2, H.
    apply elem_of_map_to_list, list_elem_of_In, Hin.
Qed.

(** The filter [search_documents] builds. *)
Definition search_filter (user_id : string) (email_id : option string)
  : gmap string MVal :=
  match email_id with
  | Some e => if PyStr.falsy e then {[ "user_id" := VStr user_id ]}
              else <["email_id" := VStr e]> {[ "user_id" := VStr user_id ]}
  | None => {[ "user_id" := VStr user_id ]}
  end.

Lemma run_search_documents (env : Env) (idx : Pinecone.Index)
    (query_vector : vector) (user_id : string) (top_k : Z)
    (email_id : option string) :
  outcome_of (run (handle env)
                (search_documents query_vector user_id top_k email_id) idx)
  = Returns (map (format_match true false)
               (Pinecone.query (similarity env) idx query_vector top_k
                  (Some (search_filter user_id email_id))
                  (search_namespace_of user_id) true false)).
Proof.
  unfold search_documents, query_vectors.
  rewrite run_bind, run_call. cbn [handle fst snd outcome_of]. reflexivity.
Qed.

(** Against the reference index [search_documents] always returns, and
    every result comes from the namespace ["user_" + user_id], carries its
    metadata, is tagged with the caller's [user_id] and, when a non-empty
    [email_id] was given, with that [email_id]; an empty [email_id] is
    treated like none. *)
Theorem search_documents_results (env : Env) (idx : Pinecone.Index)
    (query_vector : vector) (user_id : string) (top_k : Z)
    (email_id : option string) :
  exists results,
    outcome_of (run (handle env)
                  (search_documents query_vector user_id top_k email_id) idx)
    = Returns results
    /\ Py.len results <= Z.max 0 top_k
    /\ forall result, In result results ->
         exists r,
           In r (Pinecone.records idx (search_namespace_of user_id))
           /\ qr_id result = pv_id r
           /\ qr_metadata result = Some (pv_metadata r)
           /\ qr_values result = None
           /\ pv_metadata r !! "user_id" = Some (VStr user_id)
           /\ (forall e, email_id = Some e -> e <> "" ->
                 pv_metadata r !! "email_id" = Some (VStr e)).
Proof.
  eexists. split; [apply run_search_documents|]. split.
  - unfold Py.len. rewrite length_map. unfold Pinecone.query.
    rewrite length_take. lia.
  - intros result Hin. apply in_map_iff in Hin as (m & <- & Hm).
    apply in_query in Hm as (r & Hr & Hf' & ->).
    pose proof (proj1 (matches_filter_iff _ _) Hf') as Hf.
    assert (Huser : pv_metadata r !! "user_id" = Some (VStr user_id)).
    { apply Hf. unfold search_filter.
      destruct email_id as [[| c e] |]; cbn [PyStr.falsy];
        [apply lookup_singleton_eq | | apply lookup_singleton_eq].
      rewrite lookup_insert_ne by discriminate. apply lookup_singleton_eq. }
    exists r. split; [exact Hr|]. split; [reflexivity|].
    split.
    + unfold format_match. cbn [sv_metadata Pinecone.scored truthy_metadata andb negb].
      rewrite bool_decide_eq_false_2; [reflexivity|].
      intros Hempty. rewrite Hempty in Huser. discriminate Huser.
    + split; [reflexivity|]. split; [exact Huser|].
      intros e -> He. apply Hf. unfold search_filter.
      destruct e as [| c e]; [contradiction He; reflexivity|].
      cbn [PyStr.falsy]. apply lookup_insert_eq.
Qed.

(** ** Ranking candidates with [find_most_similar] *)

Example find_most_similar_example :
  map Embedding.index
      (Embedding.find_most_similar Demo.dot [1 # 1; 0 # 1]
         [[1 # 2; 0 # 1]; [9 # 10; 0 # 1]; [1 # 2; 5 # 1]; [7 # 10; 0 # 1]] 3)
  = [1; 3; 0].
Proof. reflexivity. Qed.

Example find_most_similar_negative_top_k :
  map Embedding.index
      (Embedding.find_most_similar Demo.dot [1 # 1; 0 # 1]
         [[1 # 2; 0 # 1]; [9 # 10; 0 # 1]; [1 # 2; 5 # 1]; [7 # 10; 0 # 1]] (-1))
  = [1; 3; 0].
Proof. reflexivity. Qed.

Lemma before_trans (a b c : Embedding.Similarity) :
  Embedding.before a b -> Embedding.before b c -> Embedding.before a c.
Proof.
  unfold Embedding.before. intros [Hab | [Hab Hiab]] [Hbc | [Hbc Hibc]].
  - left. lra.
  - left. lra.
  - left. lra.
  - right. split; [lra | lia].
Qed.

Lemma in_insert_descending (x y : Embedding.Similarity)
    (l : list Embedding.Similarity) :
  In y (Embedding.insert_descending x l) <-> y = x \/ In y l.
Proof.
  induction l as [| z l IH]; simpl.
  - intuition congruence.
  - destruct (Qle_bool (Embedding.similarity z) (Embedding.similarity x)); simpl;
      rewrite ?IH; intuition congruence.
Qed.

Lemma in_sort_descending (y : Embedding.Similarity) (l : list Embedding.Similarity) :
  In y (Embedding.sort_descending l) <-> In y l.
Proof.
  unfold Embedding.sort_descending. induction l as [| x l IH]; simpl.
  - tauto.
  - rewrite in_insert_descending, IH. intuition congruence.
Qed.

Lemma length_insert_descending (x : Embedding.Similarity)
    (l : list Embedding.Similarity) :
  length (Embedding.insert_descending x l) = S (length l).
Proof.
  induction l as [| z l IH]; simpl; [reflexivity|].
  destruct (Qle_bool _ _); simpl; [|rewrite IH]; reflexivity.
Qed.

Lemma length_sort_descending (l : list Embedding.Similarity) :
  length (Embedding.sort_descending l) = length l.
Proof.
  unfold Embedding.sort_descending. induction l as [| x l IH]; simpl; [reflexivity|].
  rewrite length_insert_descending, IH. reflexivity.
Qed.

(** Inserting an element that comes earlier than all others keeps the list
    ranked. *)
Lemma insert_descending_sorted (x : Embedding.Similarity)
    (l : list Embedding.Similarity) :
  Forall (fun y => Embedding.index x < Embedding.index y) l ->
  StronglySorted Embedding.before l ->
  StronglySorted Embedding.before (Embedding.insert_descending x l).
Proof.
  intros Hidx Hsorted. induction Hsorted as [| z l Hl IH Hz]; simpl.
  - repeat constructor.
  - apply Forall_cons in Hidx as [Hxz Hidx].
    destruct (Qle_bool (Embedding.similarity z) (Embedding.similarity x)) eqn:E.
    + apply Qle_bool_iff in E.
      assert (Hbefore : Embedding.before x z).
      { unfold Embedding.before.
        destruct (Qlt_le_dec (Embedding.similarity z) (Embedding.similarity x));
          [left; assumption|]. right. split; [lra | exact Hxz]. }
      constructor; [constructor; assumption|].
      constructor; [exact Hbefore|].
      eapply Forall_impl; [exact Hz|]. intros y Hy. simpl in Hy.
      eapply before_trans; eassumption.
    + assert (Hlt : (Embedding.similarity x < Embedding.similarity z)%Q).
      { apply Qnot_le_lt. intros H. apply Qle_bool_iff in H. congruence. }
      constructor; [apply IH, Hidx|].
      apply List.Forall_forall. intros y Hy.
      apply in_insert_descending in Hy as [-> | Hy].
      * left. exact Hlt.
      * rewrite List.Forall_forall in Hz. apply Hz, Hy.
Qed.

Definition similarity_entry (compute_similarity : vector -> vector -> Q)
    (query_embedding : vector) (ic : Z * vector) : Embedding.Similarity :=
  {| Embedding.index := ic.1;
     Embedding.similarity := compute_similarity query_embedding ic.2 |}.

Lemma in_enumerate_from {A : Type} (xs : list A) (k i : Z) (x : A) :
  In (i, x) (Py.enumerate_from k xs)
  <-> k <= i /\ xs !! Z.to_nat (i - k) = Some x.
Proof.
  revert k. induction xs as [| y xs IH]; intros k; simpl.
  - split; [contradiction | intros [_ H]; discriminate H].
  - rewrite IH. split.
    + intros [H | [Hk Hx]].
      * inversion H; subst. split; [lia|]. rewrite Z.sub_diag. reflexivity.
      * split; [lia|].
        replace (Z.to_nat (i - k)) with (S (Z.to_nat (i - (k + 1)))) by lia.
        exact Hx.
    + intros [Hk Hx]. destruct (Z.eq_dec i k) as [-> | Hne].
      * left. rewrite Z.sub_diag in Hx. simpl in Hx. congruence.
      * right. split; [lia|].
        replace (Z.to_nat (i - k)) with (S (Z.to_nat (i - (k + 1)))) in Hx by lia.
        exact Hx.
Qed.

Lemma sorted_entries (compute_similarity : vector -> vector -> Q)
    (query_embedding : vector) (candidates : list vector) (k : Z) :
  StronglySorted Embedding.before
    (Embedding.sort_descending
       (map (similarity_entry compute_similarity query_embedding)
          (Py.enumerate_from k candidates))).
Proof.
  revert k. induction candidates as [| c candidates IH]; intros k.
  - constructor.
  - simpl. apply insert_descending_sorted; [|apply IH].
    apply List.Forall_forall. intros y Hy.
    apply in_sort_descending, in_map_iff in Hy as ([i c'] & <- & Hin).
    apply enumerate_from_bounds in Hin. simpl. lia.
Qed.

Lemma prefix_is_take {A : Type} (l : list A) (k : Z) :
  exists n, Embedding.prefix l k = take n l.
Proof. unfold Embedding.prefix. destruct (k <? 0); eauto. Qed.

(** [find_most_similar] returns the candidates ranked by decreasing
    similarity, candidates of equal similarity in their original order.
    Each entry names a valid position and carries the similarity of the
    candidate at that position; no candidate left out is more similar than
    one returned.  For [top_k >= 0] it returns [min top_k n] entries; a
    negative [top_k] is not rejected but drops that many entries from the
    end of the ranking. *)
Theorem find_most_similar_ranked (compute_similarity : vector -> vector -> Q)
    (query_embedding : vector) (candidates : list vector) (top_k : Z) :
  let result :=
    Embedding.find_most_similar compute_similarity query_embedding candidates top_k in
  (0 <= top_k -> Py.len result = Z.min top_k (Py.len candidates))
  /\ (top_k < 0 -> Py.len result = Z.max 0 (Py.len candidates + top_k))
  /\ StronglySorted Embedding.before result
  /\ (forall r, In r result ->
        0 <= Embedding.index r
        /\ exists c, candidates !! Z.to_nat (Embedding.index r) = Some c
                     /\ Embedding.similarity r = compute_similarity query_embedding c)
  /\ (forall i c,
        candidates !! i = Some c ->
        (forall r, In r result -> Embedding.index r <> Z.of_nat i) ->
        forall r, In r result ->
                  (compute_similarity query_embedding c <= Embedding.similarity r)%Q).
Proof.
  intros result. unfold result, Embedding.find_most_similar.
  fold (similarity_entry compute_similarity query_embedding).
  set (entries := map (similarity_entry compute_similarity query_embedding)
                      (Py.enumerate candidates)).
  set (ranked := Embedding.sort_descending entries).
  assert (Hlen : length ranked = length candidates).
  { unfold ranked, entries, Py.enumerate. rewrite length_sort_descending, length_map.
    generalize 0. induction candidates as [| c cs IH]; intros k; simpl;
      [reflexivity | rewrite IH; reflexivity]. }
  assert (Hsorted : StronglySorted Embedding.before ranked)
    by apply sorted_entries.
  destruct (prefix_is_take ranked top_k) as [n Hn].
  split; [|split; [|split; [|split]]].
  - intros Hk. unfold Embedding.prefix, Py.len.
    destruct (top_k <? 0) eqn:E; [apply Z.ltb_lt in E; lia|].
    rewrite length_take, Hlen. lia.
  - intros Hk. unfold Embedding.prefix, Py.len.
    destruct (top_k <? 0) eqn:E; [|apply Z.ltb_ge in E; lia].
    rewrite length_take, Hlen. lia.
  - rewrite Hn. rewrite <- (take_drop n ranked) in Hsorted.
    eapply StronglySorted_app_1_l, Hsorted.
  - intros r Hr. rewrite Hn in Hr.
    apply list_elem_of_In, elem_of_take in Hr as (j & Hr & _).
    assert (Hin : In r ranked) by (apply list_elem_of_In, list_elem_of_lookup; eauto).
    apply in_sort_descending, in_map_iff in Hin as ([i c] & <- & Hic).
    apply in_enumerate_from in Hic as [Hi Hc]. simpl.
    rewrite Z.sub_0_r in Hc. split; [exact Hi|]. exists c. split; [exact Hc|reflexivity].
  - intros i c Hc Hout r Hr.
    assert (Hentry : In (similarity_entry compute_similarity query_embedding
                           (Z.of_nat i, c)) ranked).
    { apply in_sort_descending, in_map_iff. exists (Z.of_nat i, c).
      split; [reflexivity|]. apply in_enumerate_from. split; [lia|].
      rewrite Z.sub_0_r, Nat2Z.id. exact Hc. }
    rewrite Hn in Hr, Hout.
    rewrite <- (take_drop n ranked) in Hentry, Hsorted.
    apply in_app_or in Hentry as [Hentry | Hentry].
    + exfalso. apply (Hout _ Hentry). reflexivity.
    + pose proof (StronglySorted_app_1_elem_of _ _ _ _ _ Hsorted
                    (proj2 (list_elem_of_In _ _) Hr)
                    (proj2 (list_elem_of_In _ _) Hentry)) as Hb.
      unfold Embedding.before in Hb. simpl in Hb. destruct Hb as [Hb | [Hb _]]; lra.
Qed.

(** ** The getters under any interleaving *)

(** Whether a caller has passed the constructor call. *)
Definition past_construct (p : Singleton.pc) : nat :=
  match p with
  | Singleton.AtCheck | Singleton.AtConstruct => 0
  | _ => 1
  end.

(** What a caller may hold given the global and the number of objects
    constructed so far. *)
Definition caller_ok (global : option nat) (count : nat) (p : Singleton.pc) : Prop :=
  match p with
  | Singleton.AtAssign fresh => (1 <= fresh <= count)%nat
  | Singleton.AtReturn => global <> None
  | Singleton.Returned result => exists i, result = Some i /\ (1 <= i <= count)%nat
  | _ => True
  end.

Definition singleton_invariant (s : Singleton.Process) : Prop :=
  (forall i, Singleton.instance s = Some i -> (1 <= i <= Singleton.constructed s)%nat)
  /\ Forall (caller_ok (Singleton.instance s) (Singleton.constructed s))
            (Singleton.callers s)
  /\ (Singleton.constructed s
      <= sum_list (past_construct <$> Singleton.callers s))%nat.

Lemma sum_list_insert {A : Type} (f : A -> nat) (l : list A) (t : nat) (p p' : A) :
  l !! t = Some p ->
  (sum_list (f <$> <[t := p']> l) + f p = sum_list (f <$> l) + f p')%nat.
Proof.
  revert t. induction l as [| x l IH]; intros [| t] H; csimpl in *; try discriminate.
  - injection H as ->. lia.
  - specialize (IH t H). lia.
Qed.

Lemma sum_list_past_construct_bound (l : list Singleton.pc) :
  (sum_list (past_construct <$> l) <= length l)%nat.
Proof.
  induction l as [| p l IH]; csimpl; [lia|]. destruct p; simpl; lia.
Qed.

Lemma caller_ok_mono (global global' : option nat) (count count' : nat)
    (p : Singleton.pc) :
  (count <= count')%nat -> (global <> None -> global' <> None) ->
  caller_ok global count p -> caller_ok global' count' p.
Proof.
  intros Hc Hg. destruct p; simpl; auto.
  - lia.
  - intros (i & -> & Hi). exists i. split; [reflexivity | lia].
Qed.

Lemma singleton_step_invariant (s : Singleton.Process) (t : nat) :
  singleton_invariant s -> singleton_invariant (Singleton.step s t).
Proof.
  intros (Hinst & Hcallers & Hcount). unfold Singleton.step.
  destruct (Singleton.callers s !! t) as [p |] eqn:Hp;
    [|split; [exact Hinst | split; assumption]].
  assert (Hok : caller_ok (Singleton.instance s) (Singleton.constructed s) p).
  { rewrite Forall_lookup in Hcallers. exact (Hcallers t p Hp). }
  destruct p as [| | fresh | | result]; simpl.
  - destruct (Singleton.instance s) as [i |] eqn:Hg; unfold singleton_invariant; simpl.
    + split; [intros j Hj; apply Hinst; rewrite <- Hj; reflexivity|]. split.
      * apply Forall_insert; [exact Hcallers | discriminate].
      * pose proof (sum_list_insert past_construct _ t _ Singleton.AtReturn Hp) as H.
        simpl in H. lia.
    + split; [discriminate|]. split.
      * apply Forall_insert; [exact Hcallers | exact I].
      * pose proof (sum_list_insert past_construct _ t _ Singleton.AtConstruct Hp) as H.
        simpl in H. lia.
  - unfold singleton_invariant; simpl. split; [|split].
    + intros i Hi. specialize (Hinst i Hi). lia.
    + apply Forall_insert; [|simpl; lia].
      eapply Forall_impl; [exact Hcallers|]. intros q.
      apply caller_ok_mono; [lia | auto].
    + pose proof (sum_list_insert past_construct _ t _
                    (Singleton.AtAssign (S (Singleton.constructed s))) Hp) as H.
      simpl in H. lia.
  - unfold singleton_invariant; simpl. simpl in Hok. split; [|split].
    + intros i Hi. injection Hi as <-. exact Hok.
    + apply Forall_insert; [|simpl; discriminate].
      eapply Forall_impl; [exact Hcallers|]. intros q.
      apply caller_ok_mono; [lia | discriminate].
    + pose proof (sum_list_insert past_construct _ t _ Singleton.AtReturn Hp) as H.
      simpl in H. lia.
  - unfold singleton_invariant; simpl. simpl in Hok. split; [exact Hinst|]. split.
    + apply Forall_insert; [exact Hcallers|]. simpl.
      destruct (Singleton.instance s) as [i |]; [|contradiction Hok; reflexivity].
      exists i. split; [reflexivity | apply Hinst; reflexivity].
    + pose proof (sum_list_insert past_construct _ t _
                    (Singleton.Returned (Singleton.instance s)) Hp) as H.
      simpl in H. lia.
  - unfold singleton_invariant; simpl. split; [exact Hinst|]. split.
    + apply Forall_insert; [exact Hcallers | exact Hok].
    + pose proof (sum_list_insert past_construct _ t _
                    (Singleton.Returned result) Hp) as H.
      simpl in H. lia.
Qed.

Lemma singleton_step_length (s : Singleton.Process) (t : nat) :
  length (Singleton.callers (Singleton.step s t)) = length (Singleton.callers s).
Proof.
  unfold Singleton.step. destruct (Singleton.callers s !! t) as [p |]; [|reflexivity].
  destruct (Singleton.step_caller _ _ p) as [[global count] p']. simpl.
  apply length_insert.
Qed.

Lemma singleton_run_invariant (schedule : list nat) (s : Singleton.Process) :
  singleton_invariant s ->
  singleton_invariant (Singleton.run_schedule schedule s)
  /\ length (Singleton.callers (Singleton.run_schedule schedule s))
     = length (Singleton.callers s).
Proof.
  unfold Singleton.run_schedule. revert s.
  induction schedule as [| t schedule IH]; intros s Hs; simpl; [auto|].
  destruct (IH (Singleton.step s t) (singleton_step_invariant s t Hs)) as [H1 H2].
  split; [exact H1|]. rewrite H2. apply singleton_step_length.
Qed.

(** However the steps of [k] concurrent first calls interleave, a call that
    has returned returned an object that was constructed (never [None]), the
    global, once set, holds a constructed object, and no more objects are
    constructed than there are callers. *)
Theorem singleton_any_interleaving (k : nat) (schedule : list nat) :
  let final := Singleton.run_schedule schedule (Singleton.start k) in
  (Singleton.constructed final <= k)%nat
  /\ (forall result,
         In (Singleton.Returned result) (Singleton.callers final) ->
         exists i, result = Some i /\ (1 <= i <= Singleton.constructed final)%nat)
  /\ (forall i, Singleton.instance final = Some i ->
                (1 <= i <= Singleton.constructed final)%nat).
Proof.
  intros final.
  assert (Hstart : singleton_invariant (Singleton.start k)).
  { unfold singleton_invariant, Singleton.start. simpl. split; [discriminate|].
    split; [|lia]. apply Forall_replicate. exact I. }
  destruct (singleton_run_invariant schedule _ Hstart) as [(Hinst & Hcallers & Hcount) Hlen].
  fold final in Hinst, Hcallers, Hcount, Hlen.
  split; [|split; [|exact Hinst]].
  - pose proof (sum_list_past_construct_bound (Singleton.callers final)) as H.
    rewrite Hlen in H. simpl in H. rewrite length_replicate in H. lia.
  - intros result Hin. rewrite List.Forall_forall in Hcallers.
    exact (Hcallers _ Hin).
Qed.

(** ** The constructor of [PineconeService] *)

Lemma control_run_bind {W A B : Type} (d : Control.driver W) (p : Control.Script A)
    (f : A -> Control.Script B) (w : W) :
  Control.run d (Control.bind p f) w =
  match Control.run d p w with
  | (w1, tr1, Returns a) =>
      let '(w2, tr2, res) := Control.run d (f a) w1 in (w2, tr1 ++ tr2, res)
  | (w1, tr1, Raises e) => (w1, tr1, Raises e)
  end.
Proof.
  revert w. induction p as [a | e | c k IH]; intros w; simpl.
  - destruct (Control.run d (f a) w) as [[w2 tr2] res]. reflexivity.
  - reflexivity.
  - destruct (d c w) as [w1 rp]. rewrite IH.
    destruct (Control.run d (k rp) w1) as [[w2 tr] [a | e]]; [|reflexivity].
    destruct (Control.run d (f a) w2) as [[w3 tr3] res]. reflexivity.
Qed.

Lemma control_run_ask {W : Type} (d : Control.driver W) (c : Control.Command) (w : W) :
  Control.run d (Control.ask c) w =
  ((d c w).1, [Control.Exchanged c (d c w).2],
   match (d c w).2 with
   | Ok x => Returns x
   | Raised msg => Raises (Exception msg)
   end).
Proof.
  unfold Control.ask. simpl. destruct (d c w) as [w1 [x | msg]]; reflexivity.
Qed.

(** Without an API key, neither passed nor in the environment (absent or
    empty in both places), the constructor raises before it creates a
    client; with one, creating the client with that key is the first thing
    it does, the argument taking precedence over the environment. *)
Theorem init_requires_api_key {W : Type} (d : Control.driver W) (w : W)
    (environ : gmap string string) (api_key environment index_name : option string)
    (dimension : Z) :
  let result :=
    Control.run d (Control.init environ api_key environment index_name dimension) w in
  (Control.truthy api_key = false ->
   Control.truthy (environ !! "PINECONE_API_KEY") = false ->
   result = (w, [], Raises (Exception Control.missing_api_key)))
  /\ (forall key,
         Control.truthy (Some key) = true ->
         api_key = Some key
         \/ (Control.truthy api_key = false
             /\ environ !! "PINECONE_API_KEY" = Some key) ->
         exists rest,
           result.1.2
           = Control.Exchanged (Control.NewClient key)
               (d (Control.NewClient key) w).2 :: rest).
Proof.
  intros result. unfold result, Control.init, Control.or_getenv.
  cbn [Control.api_key]. split.
  - intros Harg Henv. rewrite Harg.
    destruct (environ !! "PINECONE_API_KEY") as [[| c rest] |];
      try reflexivity. discriminate Henv.
  - intros key Hkey Hsource.
    assert (Hself : (if Control.truthy api_key then api_key
                     else environ !! "PINECONE_API_KEY") = Some key).
    { destruct Hsource as [-> | [Harg Henv]].
      - rewrite Hkey. reflexivity.
      - rewrite Harg. exact Henv. }
    rewrite Hself. destruct key as [| c rest]; [discriminate Hkey|].
    rewrite control_run_bind, control_run_ask.
    destruct (d (Control.NewClient (String c rest)) w) as [w1 [[] | msg]];
      cbn [fst snd].
    + destruct (Control.run d _ w1) as [[w2 tr] res]. eexists. reflexivity.
    + eexists. reflexivity.
Qed.

Lemma init_requires_api_key_witness :
  Control.run Control.reference
    (Control.init {[ "PINECONE_API_KEY" := "" ]} None None None 384)
    {| Control.names := []; Control.store := Demo.empty_index |}
  = ({| Control.names := []; Control.store := Demo.empty_index |}, [],
     Raises (Exception Control.missing_api_key)).
Proof.
  exact (proj1 (init_requires_api_key Control.reference
                  {| Control.names := []; Control.store := Demo.empty_index |}
                  {[ "PINECONE_API_KEY" := "" ]} None None None 384)
           eq_refl eq_refl).
Defined.

(** Against the reference client a constructor call with an API key
    succeeds, leaves the index it is configured for in the account, keeps
    the indexes and the records that were there, and creates the index only
    if it was missing; a second call finds the index and changes nothing. *)
Theorem init_ensures_index (environ : gmap string string) (key : string)
    (environment index_name : option string) (dimension : Z) (w : Control.Plane) :
  Control.truthy (Some key) = true ->
  let name := Control.or_getenv_default index_name environ
                "PINECONE_INDEX_NAME" "rag-memories" in
  let construct :=
    Control.init environ (Some key) environment index_name dimension in
  let first := Control.run Control.reference construct w in
  let second := Control.run Control.reference construct first.1.1 in
  (exists self, first.2 = Returns self
                /\ Control.index_name self = name
                /\ Control.dimension self = dimension
                /\ second.2 = Returns self)
  /\ Control.names first.1.1
     = (if bool_decide (name ∈ Control.names w) then Control.names w
        else Control.names w ++ [name])
  /\ Control.store first.1.1 = Control.store w
  /\ (In (Control.CreateIndex name dimension "cosine" "aws" "us-east-1")
         (map Control.command_of first.1.2)
      <-> name ∉ Control.names w)
  /\ second.1.1 = first.1.1
  /\ map Control.command_of second.1.2
     = [Control.NewClient key; Control.ListIndexes; Control.OpenIndex name].
Proof.
  intros Hkey name construct first second.
  destruct key as [| c rest]; [discriminate Hkey|].
  assert (Hfound : forall w' : Control.Plane,
             name ∈ Control.names w' ->
             Control.run Control.reference construct w'
             = (w',
                [Control.Exchanged (Control.NewClient (String c rest)) (Ok tt);
                 Control.Exchanged Control.ListIndexes (Ok (Control.names w'));
                 Control.Exchanged (Control.OpenIndex name) (Ok tt)],
                Returns {| Control.api_key := Some (String c rest);
                           Control.environment :=
                             Control.or_getenv_default environment environ
                               "PINECONE_ENVIRONMENT" "gcp-starter";
                           Control.index_name := name;
                           Control.dimension := dimension |})).
  { intros w' Hin. unfold construct, Control.init, Control.or_getenv,
      Control.ensure_index_exists. simpl. fold name.
    rewrite (bool_decide_eq_true_2 _ Hin). simpl.
    rewrite (bool_decide_eq_true_2 _ Hin). reflexivity. }
  destruct (decide (name ∈ Control.names w)) as [Hin | Hout].
  - subst second first. rewrite (Hfound w Hin). cbn [fst snd].
    rewrite (Hfound w Hin). cbn [fst snd map Control.command_of].
    rewrite (bool_decide_eq_true_2 _ Hin).
    split; [eexists; repeat split|]. repeat split; try reflexivity.
    + intros [H | [H | [H | []]]]; discriminate H.
    + intros H. contradiction.
  - assert (Hfirst :
        Control.run Control.reference construct w
        = ({| Control.names := Control.names w ++ [name];
              Control.store := Control.store w |},
           [Control.Exchanged (Control.NewClient (String c rest)) (Ok tt);
            Control.Exchanged Control.ListIndexes (Ok (Control.names w));
            Control.Exchanged
              (Control.CreateIndex name dimension "cosine" "aws" "us-east-1")
              (Ok tt);
            Control.Exchanged (Control.OpenIndex name) (Ok tt)],
           Returns {| Control.api_key := Some (String c rest);
                      Control.environment :=
                        Control.or_getenv_default environment environ
                          "PINECONE_ENVIRONMENT" "gcp-starter";
                      Control.index_name := name;
                      Control.dimension := dimension |})).
    { unfold construct, Control.init, Control.or_getenv,
        Control.ensure_index_exists. simpl. fold name.
      rewrite (bool_decide_eq_false_2 _ Hout). simpl.
      rewrite (bool_decide_eq_false_2 _ Hout). simpl.
      rewrite bool_decide_eq_true_2 by (apply elem_of_app; right; constructor).
      reflexivity. }
    subst second first. rewrite Hfirst. cbn [fst snd].
    rewrite Hfound by (simpl; apply elem_of_app; right; constructor).
    cbn [fst snd map Control.command_of Control.names Control.store].
    rewrite (bool_decide_eq_false_2 _ Hout).
    split; [eexists; repeat split|]. repeat split; try reflexivity.
    + intros _. exact Hout.
    + intros _. right. right. left. reflexivity.
Qed.

Lemma init_ensures_index_witness :
  let w := {| Control.names := ["other"]; Control.store := Demo.empty_index |} in
  let construct := Control.init ∅ (Some "key") None None 384 in
  let first := Control.run Control.reference construct w in
  let second := Control.run Control.reference construct first.1.1 in
  (exists self, first.2 = Returns self
                /\ Control.index_name self = "rag-memories"
                /\ Control.dimension self = 384
                /\ second.2 = Returns self)
  /\ Control.names first.1.1 = ["other"; "rag-memories"]
  /\ Control.store first.1.1 = Demo.empty_index
  /\ (In (Control.CreateIndex "rag-memories" 384 "cosine" "aws" "us-east-1")
         (map Control.command_of first.1.2)
      <-> "rag-memories" ∉ ["other"])
  /\ second.1.1 = first.1.1
  /\ map Control.command_of second.1.2
     = [Control.NewClient "key"; Control.ListIndexes;
        Control.OpenIndex "rag-memories"].
Proof.
  exact (init_ensures_index ∅ "key" None None 384
           {| Control.names := ["other"]; Control.store := Demo.empty_index |}
           eq_refl).
Defined.

(** ** [delete_vectors] *)

Definition no_ids (ids : option (list string)) : bool :=
  match ids with
  | Some (_ :: _) => false
  | _ => true
  end.

(** [delete_vectors] sends at most one request.  It sends none, and raises
    its [ValueError], exactly when [delete_all] is false and both [ids] and
    [filter_metadata] are absent or empty.  With [delete_all] the request
    clears the namespace whatever [ids] and [filter_metadata] are, and with
    ids the count reported on success is the number of ids passed. *)
Theorem delete_vectors_requests {W : Type} (d : Control.driver W) (w : W)
    (ids : option (list string)) (filter_metadata : option (gmap string MVal))
    (namespace : string) (delete_all : bool) :
  let result :=
    Control.run d (Control.delete_vectors ids filter_metadata namespace delete_all) w in
  (length result.1.2 <= 1)%nat
  /\ (result.1.2 = []
      <-> delete_all = false /\ no_ids ids = true
          /\ truthy_metadata filter_metadata = false)
  /\ (result.1.2 = [] ->
      result = (w, [], Raises (Exception Control.nothing_to_delete)))
  /\ (delete_all = true ->
      map Control.command_of result.1.2
      = [Control.IndexDelete Control.DeleteAll namespace])
  /\ (delete_all = false -> no_ids ids = false ->
      exists given,
        ids = Some given
        /\ map Control.command_of result.1.2
           = [Control.IndexDelete (Control.DeleteIds given) namespace]
        /\ forall response,
             result.2 = Returns response ->
             response = Control.DeletedIds (Py.len given) (or_default namespace)).
Proof.
  intros result. unfold result, Control.delete_vectors, Control.delete_by_filter.
  destruct delete_all.
  - rewrite control_run_bind, control_run_ask.
    destruct (d (Control.IndexDelete Control.DeleteAll namespace) w)
      as [w1 [[] | msg]]; simpl;
      (repeat split; try lia; try discriminate; try reflexivity;
       try (intros (H & _); discriminate H)).
  - destruct ids as [[| id rest] |]; simpl no_ids.
    + destruct filter_metadata as [filter |]; simpl truthy_metadata.
      * destruct (bool_decide (filter = ∅)); simpl negb.
        -- simpl. repeat split; try lia; try discriminate; try reflexivity.
        -- rewrite control_run_bind, control_run_ask.
           destruct (d (Control.IndexDelete (Control.DeleteFilter filter) namespace) w)
             as [w1 [[] | msg]]; simpl;
             (repeat split; try lia; try discriminate; try reflexivity;
              try (intros (_ & _ & H); discriminate H)).
      * simpl. repeat split; try lia; try discriminate; try reflexivity.
    + rewrite control_run_bind, control_run_ask.
      destruct (d (Control.IndexDelete (Control.DeleteIds (id :: rest)) namespace) w)
        as [w1 [[] | msg]]; simpl.
      * split; [lia|]. split; [split; [discriminate | intros (_ & H & _); discriminate H]|].
        split; [discriminate|]. split; [discriminate|].
        intros _ _. exists (id :: rest). repeat split.
        intros response H. injection H as <-. reflexivity.
      * split; [lia|]. split; [split; [discriminate | intros (_ & H & _); discriminate H]|].
        split; [discriminate|]. split; [discriminate|].
        intros _ _. exists (id :: rest). repeat split.
        intros response H. discriminate H.
    + destruct filter_metadata as [filter |]; simpl truthy_metadata.
      * destruct (bool_decide (filter = ∅)); simpl negb.
        -- simpl. repeat split; try lia; try discriminate; try reflexivity.
        -- rewrite control_run_bind, control_run_ask.
           destruct (d (Control.IndexDelete (Control.DeleteFilter filter) namespace) w)
             as [w1 [[] | msg]]; simpl;
             (repeat split; try lia; try discriminate; try reflexivity;
              try (intros (_ & _ & H); discriminate H)).
      * simpl. repeat split; try lia; try discriminate; try reflexivity.
Qed.

Lemma records_after_delete (idx : Pinecone.Index) (what : Control.Deletion)
    (namespace other : string) :
  Pinecone.records (Control.delete idx what namespace) other
  = if bool_decide (namespace = other)
    then Control.remaining what (Pinecone.records idx namespace)
    else Pinecone.records idx other.
Proof.
  unfold Control.delete, Pinecone.records at 1. simpl.
  destruct (bool_decide (namespace = other)) eqn:E.
  - apply bool_decide_eq_true in E as <-. rewrite lookup_insert_eq. reflexivity.
  - apply bool_decide_eq_false in E. rewrite lookup_insert_ne by exact E. reflexivity.
Qed.

(** Against the reference client, what [delete_vectors] deleted is not
    found again.  After [delete_all] on a tenant's namespace the query
    endpoint gives that tenant the canned answer; after a deletion by ids no
    query in the namespace returns a match with one of these ids; either way
    the records of every other namespace stay. *)
Theorem deleted_records_are_gone (env : Env) (w : Control.Plane)
    (ids : option (list string)) (filter_metadata : option (gmap string MVal))
    (namespace : string) :
  (forall request v,
      namespace = namespace_of (r_userId request) (r_email request) ->
      is_blank (r_query request) = false ->
      embed_text_while_searching env (r_query request) = Ok v ->
      let cleared :=
        (Control.run Control.reference
           (Control.delete_vectors ids filter_metadata namespace true) w).1.1 in
      outcome_of (run (handle env) (retrieve_rag_data request) (Control.store cleared))
      = Returns {| answer := no_information; score := 0 # 1 |}
      /\ forall other, other <> namespace ->
           Pinecone.records (Control.store cleared) other
           = Pinecone.records (Control.store w) other)
  /\ (forall given,
         ids = Some given -> given <> [] ->
         let cleared :=
           (Control.run Control.reference
              (Control.delete_vectors ids filter_metadata namespace false) w).1.1 in
         (forall qv top_k filter incl_md incl_vals m,
             In m (Pinecone.query (similarity env) (Control.store cleared) qv top_k
                     filter namespace incl_md incl_vals) ->
             sv_id m ∉ given)
         /\ (forall r, In r (Pinecone.records (Control.store w) namespace) ->
                       pv_id r ∉ given ->
                       In r (Pinecone.records (Control.store cleared) namespace))
         /\ forall other, other <> namespace ->
              Pinecone.records (Control.store cleared) other
              = Pinecone.records (Control.store w) other).
Proof.
  split.
  - intros request v Hns Hq Hembed cleared.
    assert (Hcleared : Control.store cleared
                       = Control.delete (Control.store w) Control.DeleteAll namespace)
      by reflexivity.
    clearbody cleared. rewrite Hcleared. split.
    + assert (Hnone : forall qv top_k filter incl_md incl_vals,
                 Pinecone.query (similarity env)
                   (Control.delete (Control.store w) Control.DeleteAll namespace)
                   qv top_k filter namespace incl_md incl_vals = []).
      { intros. unfold Pinecone.query. rewrite records_after_delete.
        rewrite bool_decide_eq_true_2 by reflexivity. simpl. apply take_nil. }
      rewrite run_retrieve_rag_data by exact Hq. cbv zeta.
      unfold query_request. cbn [handle fst snd]. rewrite Hembed.
      rewrite <- Hns, Hnone. reflexivity.
    + intros other Hother. rewrite records_after_delete.
      rewrite bool_decide_eq_false_2 by congruence. reflexivity.
  - intros given -> Hgiven cleared.
    destruct given as [| id rest]; [contradiction Hgiven; reflexivity|].
    assert (Hcleared : Control.store cleared
                       = Control.delete (Control.store w)
                           (Control.DeleteIds (id :: rest)) namespace)
      by reflexivity.
    split; [|split].
    + intros qv top_k filter incl_md incl_vals m Hm.
      apply in_query in Hm as (r & Hr & _ & ->).
      rewrite Hcleared, records_after_delete in Hr.
      rewrite bool_decide_eq_true_2 in Hr by reflexivity.
      apply filter_In in Hr as [_ Hr]. apply negb_true_iff in Hr.
      apply bool_decide_eq_false in Hr. exact Hr.
    + intros r Hr Hid. rewrite Hcleared, records_after_delete.
      rewrite bool_decide_eq_true_2 by reflexivity.
      apply filter_In. split; [exact Hr|]. apply negb_true_iff.
      apply bool_decide_eq_false_2, Hid.
    + intros other Hother. rewrite Hcleared, records_after_delete.
      rewrite bool_decide_eq_false_2 by congruence. reflexivity.
Qed.

Lemma deleted_records_are_gone_witness :
  let w := {| Control.names := ["rag-memories"];
              Control.store := world_of Scenario.after_u1 |} in
  let cleared :=
    (Control.run Control.reference
       (Control.delete_vectors None None "user_u1_d1" true) w).1.1 in
  outcome_of (run Scenario.h (retrieve_rag_data Scenario.ask_u1)
                (Control.store cleared))
  = Returns {| answer := no_information; score := 0 # 1 |}
  /\ forall other, other <> "user_u1_d1" ->
       Pinecone.records (Control.store cleared) other
       = Pinecone.records (world_of Scenario.after_u1) other.
Proof.
  exact (proj1 (deleted_records_are_gone Demo.env
                  {| Control.names := ["rag-memories"];
                     Control.store := world_of Scenario.after_u1 |}
                  None None "user_u1_d1")
           Scenario.ask_u1 (Demo.embed "hello") eq_refl eq_refl eq_refl).
Defined.

(** ** When namespaces separate *)

(** No character of the string is an underscore. *)
Fixpoint no_underscore (s : string) : bool :=
  match s with
  | EmptyString => true
  | String c rest => negb (Ascii.eqb c "_") && no_underscore rest
  end.

Lemma append_cancel_l (a b c : string) : a +:+ b = a +:+ c -> b = c.
Proof.
  induction a as [| x a IH]; [auto|]. rewrite !append_cons. intros H.
  injection H as H. exact (IH H).
Qed.

Lemma append_cancel_r (a b c : string) : a +:+ c = b +:+ c -> a = b.
Proof.
  revert b. induction a as [| x a IH]; intros [| y b] H.
  - reflexivity.
  - apply (f_equal String.length) in H. rewrite !length_append in H.
    simpl in H. lia.
  - apply (f_equal String.length) in H. rewrite !length_append in H.
    simpl in H. lia.
  - rewrite !append_cons in H. injection H as -> H. f_equal. exact (IH b H).
Qed.

Lemma split_at_first_underscore (a b c d : string) :
  no_underscore a = true -> no_underscore b = true ->
  a +:+ String "_" c = b +:+ String "_" d -> a = b /\ c = d.
Proof.
  revert b. induction a as [| x a IH]; intros [| y b] Ha Hb H.
  - injection H as H. auto.
  - rewrite append_cons in H. injection H as <- _. simpl in Hb. discriminate Hb.
  - rewrite append_cons in H. injection H as -> _. simpl in Ha. discriminate Ha.
  - rewrite !append_cons in H. injection H as -> H.
    simpl in Ha, Hb. apply andb_true_iff in Ha as [_ Ha].
    apply andb_true_iff in Hb as [_ Hb].
    destruct (IH b Ha Hb H) as [-> ->]. auto.
Qed.

(** Where the namespace derivation does separate: for a fixed tenant id
    different document ids give different namespaces, for a fixed document
    id different tenant ids do, and two pairs whose tenant ids contain no
    underscore share a namespace only if they are the same pair. *)
Theorem namespace_of_separates (user_id user_id' email_id email_id' : string) :
  (namespace_of user_id email_id = namespace_of user_id email_id' ->
   email_id = email_id')
  /\ (namespace_of user_id email_id = namespace_of user_id' email_id ->
      user_id = user_id')
  /\ (no_underscore user_id = true -> no_underscore user_id' = true ->
      namespace_of user_id email_id = namespace_of user_id' email_id' ->
      user_id = user_id' /\ email_id = email_id').
Proof.
  unfold namespace_of. split; [|split].
  - intros H. do 3 apply append_cancel_l in H. exact H.
  - intros H. apply append_cancel_l in H.
    apply (append_cancel_r user_id user_id' ("_" +:+ email_id)), H.
  - intros Hu Hu' H. apply append_cancel_l in H.
    exact (split_at_first_underscore _ _ _ _ Hu Hu' H).
Qed.

Lemma namespace_of_separates_witness :
  "tenant-1" = "tenant-1" /\ "doc_1" = "doc_1".
Proof.
  exact (proj2 (proj2 (namespace_of_separates "tenant-1" "tenant-1" "doc_1" "doc_1"))
           eq_refl eq_refl eq_refl).
Defined.

(** ** Each stored vector embeds its own text *)

(** The embedder embeds each text on its own and answers in the order
    asked. *)
Definition embedder_contract (embed : string -> vector) (r : Request)
  : reply (Response r) -> Prop :=
  match r return reply (Response r) -> Prop with
  | EmbedTextsWhileStoring texts =>
      fun rp => match rp with
                | Ok embeddings => embeddings = map embed texts
                | Raised _ => True
                end
  | _ => fun _ => True
  end.

Definition embeds_own_text (embed : string -> vector) (r : Request) : Prop :=
  match r with
  | IndexUpsert vectors _ =>
      forall v, In v vectors ->
                exists text, pv_metadata v !! "text" = Some (VStr text)
                             /\ pv_values v = embed text
  | _ => True
  end.

Lemma zip_embedded (embed : string -> vector) (nodes : list Node) (n : Node)
    (e : vector) :
  In (n, e) (Py.zip nodes (map embed (map get_content nodes))) ->
  e = embed (get_content n).
Proof.
  induction nodes as [| n' nodes IH]; simpl; [contradiction|].
  intros [H | H]; [inversion H; reflexivity | exact (IH H)].
Qed.

Lemma safe_store_rag_data_embeds (embed : string -> vector)
    (request : RagStoreRequest) :
  safe (embeds_own_text embed) (embedder_contract embed)
       (store_rag_data request) (fun _ => True).
Proof.
  rewrite store_rag_data_unfold.
  apply safe_try_except; [|intros; apply safe_http_guard].
  destruct (is_blank (s_content request)); [exact I|].
  eapply safe_bind; [apply safe_call; exact I|]. intros chunks _.
  unfold store_after_split.
  eapply safe_bind; [apply safe_call; exact I|]. intros timestamp _. cbn [bind].
  eapply safe_bind; [apply safe_call; exact I|]. intros nodes _.
  eapply safe_bind; [apply safe_call; exact I|]. intros embeddings Hemb.
  simpl in Hemb. subst embeddings.
  eapply safe_bind with (Q := fun _ => True); [|intros; exact I].
  unfold store_documents.
  eapply safe_bind with (Q := fun _ => True); [|intros; exact I].
  apply safe_upsert_vectors. intros batch Hsub. simpl.
  intros v Hv. apply Hsub, in_map_iff in Hv as ([n e] & <- & Hin).
  apply zip_embedded in Hin as ->.
  exists (get_content n). split; [|reflexivity].
  unfold pinecone_vector_of. simpl. by simplify_map_eq.
Qed.

(** When the embedder embeds each text on its own and keeps the order, every
    record [store_rag_data] hands to the index carries, as its vector, the
    embedding of the text stored in its own metadata: the positional pairing
    of nodes and embeddings never crosses two chunks. *)
Theorem stored_vector_embeds_text {W : Type} (h : handler W) (w : W)
    (embed : string -> vector) (request : RagStoreRequest) :
  (forall r w, embedder_contract embed r (h r w).2) ->
  forall namespace v,
    In (namespace, v) (upserts (trace_of (run h (store_rag_data request) w))) ->
    exists text, pv_metadata v !! "text" = Some (VStr text)
                 /\ pv_values v = embed text.
Proof.
  intros Hh namespace v Hin.
  apply in_upserts in Hin as (e & vectors & He & Hreq & Hv).
  destruct (safe_run _ _ h _ _ w Hh (safe_store_rag_data_embeds embed request))
    as [Htrace _].
  rewrite List.Forall_forall in Htrace. specialize (Htrace e He).
  rewrite Hreq in Htrace. exact (Htrace v Hv).
Qed.

Lemma demo_embedder_contract (r : Request) (idx : Pinecone.Index) :
  embedder_contract Demo.embed r (Scenario.h r idx).2.
Proof. destruct r; try exact I. reflexivity. Qed.

Lemma stored_vector_embeds_text_witness :
  Forall (fun nv : string * PineconeVector =>
            exists text, pv_metadata nv.2 !! "text" = Some (VStr text)
                         /\ pv_values nv.2 = Demo.embed text)
         (upserts (trace_of Scenario.after_u1)).
Proof.
  apply List.Forall_forall. intros [namespace v] Hin.
  exact (stored_vector_embeds_text Scenario.h Demo.empty_index Demo.embed
           Scenario.store_u1 demo_embedder_contract namespace v Hin).
Defined.

(** ** What the answer generator is given *)

(** The generator is asked at most once, with the query text as received,
    temperature 0.3 and at most 1024 tokens, and with one context chunk per
    match returned by the index, in the order the index returned them and
    with their scores. *)
Theorem generator_gets_matches_in_order {W : Type} (h : handler W) (w : W)
    (request : RagRetrieveRequest) :
  let trace := trace_of (run h (retrieve_rag_data request) w) in
  forall query context_chunks temperature max_tokens,
    In (GenerateResponse query context_chunks temperature max_tokens)
       (map request_of trace) ->
    query = r_query request
    /\ temperature = 3 # 10
    /\ max_tokens = 1024
    /\ context_chunks
       = map context_chunk_of (map (format_match true false) (matched trace))
    /\ map cc_score context_chunks = map sv_score (matched trace)
    /\ matched trace <> []
    /\ length (List.filter
                 (fun r => match r with
                           | GenerateResponse _ _ _ _ => true
                           | _ => false
                           end)
                 (map request_of trace)) = 1%nat.
Proof.
  intros trace query context_chunks temperature max_tokens. unfold trace.
  destruct (is_blank (r_query request)) eqn:Hq.
  - unfold retrieve_rag_data. rewrite Hq. simpl. contradiction.
  - rewrite run_retrieve_rag_data by exact Hq. cbv zeta.
    destruct (h (EmbedTextWhileSearching (r_query request)) w) as [w1 [v | msg]].
    + destruct (h (query_request request v) w1) as [w2 [[| m ms] | msg]].
      * unfold query_request. simpl. intros [H | [H | []]]; discriminate H.
      * destruct (h (generate_request request (m :: ms)) w2) as [w3 rp].
        unfold query_request, generate_request, trace_of. cbn [fst snd map request_of].
        intros [H | [H | [H | []]]]; try discriminate H.
        injection H as <- <- <- <-.
        cbn [matched flat_map matches_of app]. rewrite app_nil_r.
        repeat split; try reflexivity.
        -- exact (context_scores (m :: ms)).
        -- discriminate.
      * unfold query_request. simpl. intros [H | [H | []]]; discriminate H.
    + simpl. intros [H | []]; discriminate H.
Qed.

Lemma generator_gets_matches_in_order_witness :
  let trace := trace_of (run Scenario.h (retrieve_rag_data Scored.ask) Scored.index) in
  r_query Scored.ask = "q"
  /\ 3 # 10 = 3 # 10
  /\ 1024 = 1024
  /\ map context_chunk_of (map (format_match true false) Scored.matches)
     = map context_chunk_of (map (format_match true false) (matched trace))
  /\ map cc_score
       (map context_chunk_of (map (format_match true false) Scored.matches))
     = map sv_score (matched trace)
  /\ matched trace <> []
  /\ length (List.filter
               (fun r => match r with
                         | GenerateResponse _ _ _ _ => true
                         | _ => false
                         end)
               (map request_of trace)) = 1%nat.
Proof.
  exact (generator_gets_matches_in_order Scenario.h Scored.index Scored.ask
           "q" (map context_chunk_of (map (format_match true false) Scored.matches))
           (3 # 10) 1024 ltac:(vm_compute; right; right; left; reflexivity)).
Defined.
